(** * Chat client and speech controller: a shallow embedding

    The repository has two leaf components:
    - [src/api.ts]: [sendChatMessage], one POST to a fixed endpoint and the
      classification of its outcome into a returned body or a [ChatApiError];
    - the [useSpeechRecognition] hook: refs and state of a small controller
      around the browser's speech-recognition engine, with two timers.

    Both are embedded as executable Rocq functions.  Effects are explicit:
    every function returns the list of observable events it performed
    (console output, transport calls, engine calls, alerts, timers,
    callback invocations) next to its result. *)

From Stdlib Require Import String Ascii List ZArith Bool Arith Lia DecimalString.
Import ListNotations.
Open Scope string_scope.
Set Warnings "-register-all".

(** ** JavaScript values as the code observes them *)

Module JS.

(** A string holds the UTF-8 bytes of its text, as the literals of this
    file do.  Equality, emptiness, concatenation and the search for an ASCII
    substring are then those of the text; its length and its white space are
    read off the bytes by [utf16_length] and [trim] below. *)

(** A number, known by the two things the code can make of it: whether it
    is zero (ToBoolean) and its text (ToString). *)
Record number : Type := { is_zero : bool; text : string }.

(** A value produced by [JSON.parse]; an object is the list of its own
    properties, first binding first. *)
Inductive json : Type :=
| JNull
| JBool (b : bool)
| JNum (n : number)
| JStr (s : string)
| JArr (l : list json)
| JObj (l : list (string * json)).

(** A JavaScript value read from a property: [None] is [undefined]. *)
Definition value := option json.

(** ToBoolean. *)
Definition truthy (v : value) : bool :=
  match v with
  | None => false
  | Some JNull => false
  | Some (JBool b) => b
  | Some (JNum n) => negb (is_zero n)
  | Some (JStr s) => negb (s =? "")
  | Some (JArr _) => true
  | Some (JObj _) => true
  end.

(** [v === lit] for a string literal [lit]. *)
Definition strict_eq_str (v : value) (lit : string) : bool :=
  match v with
  | Some (JStr s) => s =? lit
  | _ => false
  end.

(** [v !== null]. *)
Definition is_not_null (v : value) : bool :=
  match v with
  | Some JNull => false
  | _ => true
  end.

(** Decimal rendering of an integer, as in a template literal. *)
Definition decimal (z : Z) : string := NilZero.string_of_int (Z.to_int z).

(** Own-property lookup in a parsed object. *)
Fixpoint lookup (k : string) (l : list (string * json)) : value :=
  match l with
  | [] => None
  | (k', v) :: r => if k' =? k then Some v else lookup k r
  end.

(** ToString, as applied by the [Error] constructor to its message;
    [None] when the conversion throws a [TypeError].  A parsed object is
    printed by [Object.prototype.toString] unless an own property named
    "toString" hides it: that property is no function, and neither it nor
    [valueOf] yields a primitive.  An array joins its elements with commas,
    [null] elements as empty strings. *)
Fixpoint toString (v : json) : option string :=
  match v with
  | JNull => Some "null"
  | JBool true => Some "true"
  | JBool false => Some "false"
  | JNum n => Some (text n)
  | JStr s => Some s
  | JArr l =>
      (fix join (l : list json) : option string :=
         match l with
         | [] => Some EmptyString
         | x :: r =>
             match (match x with JNull => Some EmptyString | _ => toString x end) with
             | None => None
             | Some sx =>
                 match r with
                 | [] => Some sx
                 | _ :: _ =>
                     match join r with
                     | None => None
                     | Some sr => Some (sx ++ "," ++ sr)
                     end
                 end
             end
         end) l
  | JObj l =>
      match lookup "toString" l with
      | Some _ => None
      | None => Some "[object Object]"
      end
  end.

(** The property [k] of a parsed value that is not [null]: only objects
    have the properties the code reads. *)
Definition prop (v : json) (k : string) : value :=
  match v with
  | JObj l => lookup k l
  | _ => None
  end.

(** [s.includes(needle)]. *)
Fixpoint includes (needle s : string) : bool :=
  prefix needle s
  || match s with
     | EmptyString => false
     | String _ r => includes needle r
     end.

(** [s.length]: the number of UTF-16 code units of the text.  A byte
    that starts a sequence of one, two or three bytes stands for one code
    unit, one that starts a sequence of four for a surrogate pair, and a
    continuation byte for none. *)
Definition units (c : ascii) : nat :=
  let n := N_of_ascii c in
  if (n <? 128)%N then 1
  else if (n <? 192)%N then 0
  else if (n <? 240)%N then 1
  else 2.

Fixpoint utf16_length (s : string) : nat :=
  match s with
  | EmptyString => 0
  | String c r => units c + utf16_length r
  end.

(** White space and line terminators, by the length of their encoding:
    U+0009 to U+000D and U+0020; U+00A0; U+1680, U+2000 to U+200A, U+2028,
    U+2029, U+202F, U+205F, U+3000 and U+FEFF. *)
Definition ws1 (a : ascii) : bool :=
  let n := N_of_ascii a in
  ((9 <=? n) && (n <=? 13) || (n =? 32))%N.

Definition ws2 (a b : ascii) : bool :=
  ((N_of_ascii a =? 194) && (N_of_ascii b =? 160))%N.

Definition ws3 (a b c : ascii) : bool :=
  let x := N_of_ascii a in
  let y := N_of_ascii b in
  let z := N_of_ascii c in
  ((x =? 225) && (y =? 154) && (z =? 128)
   || (x =? 226) && (y =? 128)
      && ((128 <=? z) && (z <=? 138) || (z =? 168) || (z =? 169) || (z =? 175))
   || (x =? 226) && (y =? 129) && (z =? 159)
   || (x =? 227) && (y =? 128) && (z =? 128)
   || (x =? 239) && (y =? 187) && (z =? 191))%N.

Fixpoint trimStart (s : string) : string :=
  match s with
  | EmptyString => EmptyString
  | String a r =>
      if ws1 a then trimStart r
      else
        match r with
        | EmptyString => s
        | String b r2 =>
            if ws2 a b then trimStart r2
            else
              match r2 with
              | EmptyString => s
              | String c r3 => if ws3 a b c then trimStart r3 else s
              end
        end
  end.

(** The text up to its last character that is not white space: the bytes
    before the longest suffix made of white space only. *)
Fixpoint trimEnd (s : string) : string :=
  match s with
  | EmptyString => EmptyString
  | String a r => if trimStart s =? "" then EmptyString else String a (trimEnd r)
  end.

(** [s.trim()]. *)
Definition trim (s : string) : string := trimEnd (trimStart s).

(** The classes of thrown values the code tells apart with [instanceof]. *)
Inductive error_class : Type := TypeError | SyntaxError | OtherError.

Record js_error : Type := { err_class : error_class; err_message : string }.

Definition is_TypeError (e : js_error) : bool :=
  match err_class e with TypeError => true | _ => false end.

End JS.

(** ** The declared types ([types.ts]) *)

Module Types.

Record ChatAttachment : Type :=
  { name : string; mime : string; contentString : string }.

Inductive Mode : Type := query | chat.

Record ApiRequestBody : Type :=
  { message : string;
    mode : Mode;
    sessionId : string;
    attachments : option (list ChatAttachment);
    reset : bool }.

End Types.

(** ** [api.ts] *)

Module Api.
Import JS.

Definition API_URL : string :=
  "https://suxr2ydt.rpcl.host/api/v1/workspace/okulyapayzeka/chat".

(** What a [ChatApiError] carries in [details]. *)
Inductive error_details : Type :=
| NoDetails
| StatusDetails (status : Z) (statusText : string)
| BodyDetails (data : json)
| CauseDetails (cause : js_error).

Record ChatApiError : Type :=
  { message : string; details : error_details }.

(** A value thrown inside [sendChatMessage]. *)
Inductive thrown : Type :=
| ThrowChatApiError (e : ChatApiError)
| ThrowError (e : js_error).

(** The argument of [fetch]: the body is kept as the object handed to
    [JSON.stringify]. *)
Record request : Type :=
  { url : string;
    method : string;
    headers : list (string * string);
    body : Types.ApiRequestBody }.

(** A response: [json_body] is what [response.json()] settles to. *)
Record response : Type :=
  { status : Z;
    statusText : string;
    json_body : js_error + json }.

Definition ok (r : response) : bool :=
  (200 <=? status r)%Z && (status r <=? 299)%Z.

Inductive event : Type :=
| ConsoleLog (tag : string)
| ConsoleError (tag : string)
| Fetch (req : request).

(** *** Exceptions and the event log *)

Inductive completion (A : Type) : Type :=
| Return (a : A)
| Throw (e : thrown).
Arguments Return {A} a.
Arguments Throw {A} e.

Definition M (A : Type) : Type := (list event * completion A)%type.

Definition ret {A} (a : A) : M A := ([], Return a).

Definition throw {A} (e : thrown) : M A := ([], Throw e).

Definition emit (ev : event) : M unit := ([ev], Return tt).

Definition bind {A B} (m : M A) (f : A -> M B) : M B :=
  match m with
  | (t, Return a) => let (t', r) := f a in ((t ++ t')%list, r)
  | (t, Throw e) => (t, Throw e)
  end.

Definition try_catch {A} (m : M A) (handler : thrown -> M A) : M A :=
  match m with
  | (t, Throw e) => let (t', r) := handler e in ((t ++ t')%list, r)
  | (t, Return a) => (t, Return a)
  end.

Notation "x <- m ;; k" := (bind m (fun x => k))
  (at level 61, m at next level, right associativity).
Notation "m ;;; k" := (bind m (fun _ => k))
  (at level 61, right associativity).

(** [v.k]: reading a property of [null] throws a [TypeError]; any other
    parsed value answers with its own property or [undefined]. *)
Definition get (v : json) (k : string) : M value :=
  match v with
  | JNull =>
      throw (ThrowError
               {| err_class := TypeError;
                  err_message := "Cannot read properties of null (reading '" ++ k ++ "')" |})
  | _ => ret (prop v k)
  end.

(** [await response.json()]. *)
Definition response_json (r : response) : M json :=
  match json_body r with
  | inl e => throw (ThrowError e)
  | inr v => ret v
  end.

(** [await fetch(API_URL, init)] against a transport. *)
Definition call_fetch (fetch : request -> js_error + response) (req : request)
  : M response :=
  emit (Fetch req) ;;;
  match fetch req with
  | inl e => throw (ThrowError e)
  | inr r => ret r
  end.

(** The string [Error] makes of the message it is given: ToString of the
    value, and the empty message of the prototype for [undefined]; [None]
    when ToString throws. *)
Definition render (v : value) : option string :=
  match v with Some j => toString j | None => Some EmptyString end.

(** What ToString throws on a value it cannot convert (the wording is
    V8's). *)
Definition CANNOT_CONVERT : js_error :=
  {| err_class := TypeError;
     err_message := "Cannot convert object to primitive value" |}.

(** [new ChatApiError(message, details)]: the error, unless [super(message)]
    throws. *)
Definition new_ChatApiError (msg : value) (d : error_details) : M ChatApiError :=
  match render msg with
  | Some text => ret {| message := text; details := d |}
  | None => throw (ThrowError CANNOT_CONVERT)
  end.

(** [throw new ChatApiError(message, details)]. *)
Definition raise {A} (msg : value) (d : error_details) : M A :=
  e <- new_ChatApiError msg d ;;
  throw (ThrowChatApiError e).

(** *** The messages *)

Definition MSG_MISSING_KEY : string :=
  "API anahtarı bulunamadı. Lütfen .env dosyasında VITE_API_KEY değişkenini ayarlayın.".
Definition MSG_INVALID_KEY : string :=
  "Geçersiz API anahtarı. Lütfen API anahtarınızı kontrol edin ve .env dosyasında VITE_API_KEY değişkenini doğru şekilde ayarlayın.".
Definition MSG_ACCESS_DENIED : string :=
  "API erişimi reddedildi. Lütfen yetkilendirme bilgilerinizi kontrol edin.".
Definition MSG_INVALID_REQUEST : string :=
  "Geçersiz istek. Lütfen gönderdiğiniz verileri kontrol edin.".
Definition MSG_SERVER_ERROR : string :=
  "Sunucu hatası. Lütfen daha sonra tekrar deneyin.".
Definition MSG_NETWORK : string :=
  "Ağ bağlantı hatası. İnternet bağlantınızı kontrol edin ve tekrar deneyin.".
Definition MSG_UNEXPECTED : string :=
  "Beklenmeyen bir hata oluştu. Lütfen tekrar deneyin.".

(** The template [`API yanıt hatası: ${status} ${statusText}`]. *)
Definition status_line (r : response) : string :=
  "API yanıt hatası: " ++ decimal (status r) ++ " " ++ statusText r.

(** *** [sendChatMessage] *)

(** [!API_KEY]: the variable is undefined or the empty string. *)
Definition key_missing (API_KEY : option string) : bool :=
  match API_KEY with
  | None => true
  | Some k => k =? ""
  end.

Definition key_text (API_KEY : option string) : string :=
  match API_KEY with Some k => k | None => "undefined" end.

(** Lines 26-36: the request body. *)
Definition requestBody (message : string) (mode : Types.Mode) (sessionId : string)
    (attachments : option (list Types.ChatAttachment)) (reset : bool)
  : Types.ApiRequestBody :=
  {| Types.message := message;
     Types.mode := mode;
     Types.sessionId := sessionId;
     Types.attachments :=
       match attachments with
       | Some l => if (0 <? List.length l)%nat then Some l else None
       | None => None
       end;
     Types.reset := reset |}.

(** Lines 67-89: the inner [try] that picks the message of a failed
    response. *)
Definition errorMessage_of (r : response) : M value :=
  try_catch
    (errorData <- response_json r ;;
     emit (ConsoleError "API hata detayları") ;;;
     if (status r =? 403)%Z then
       e <- get errorData "error" ;;
       if strict_eq_str e "No valid api key found." then
         ret (Some (JStr MSG_INVALID_KEY))
       else
         m <- get errorData "message" ;;
         if strict_eq_str m "Invalid API Key" then
           ret (Some (JStr MSG_INVALID_KEY))
         else ret (Some (JStr MSG_ACCESS_DENIED))
     else if (status r =? 400)%Z then
       m <- get errorData "message" ;;
       ret (if truthy m then m else Some (JStr MSG_INVALID_REQUEST))
     else if (status r =? 500)%Z then
       ret (Some (JStr MSG_SERVER_ERROR))
     else
       m <- get errorData "message" ;;
       if truthy m then ret m
       else
         e <- get errorData "error" ;;
         if truthy e then ret e
         else ret (Some (JStr (status_line r))))
    (fun parseError =>
       emit (ConsoleError "Hata yanıtı ayrıştırılamadı") ;;;
       ret (Some (JStr (status_line r)))).

(** Lines 112-124: the outer [catch]. *)
Definition on_error (error : thrown) : M json :=
  match error with
  | ThrowChatApiError e => throw (ThrowChatApiError e)
  | ThrowError e =>
      if is_TypeError e && includes "fetch" (err_message e) then
        raise (Some (JStr MSG_NETWORK)) (CauseDetails e)
      else
        emit (ConsoleError "Beklenmeyen hata") ;;;
        raise (Some (JStr MSG_UNEXPECTED)) (CauseDetails e)
  end.

Definition default {A} (d : A) (o : option A) : A :=
  match o with Some a => a | None => d end.

(** Lines 48-56: the second argument of [fetch] with its URL. *)
Definition fetch_request (API_KEY : option string) (requestBody : Types.ApiRequestBody)
  : request :=
  {| url := API_URL;
     method := "POST";
     headers := [("Content-Type", "application/json");
                 ("Authorization", "Bearer " ++ key_text API_KEY);
                 ("Accept", "application/json")];
     body := requestBody |}.

(** Lines 58-111: what the [try] block does with the response. *)
Definition handle_response (response : response) : M json :=
  emit (ConsoleLog "API yanıtı alındı") ;;;
  if negb (ok response) then
    errorMessage <- errorMessage_of response ;;
    raise errorMessage (StatusDetails (status response) (statusText response))
  else
    data <- response_json response ;;
    get data "id" ;;;
    emit (ConsoleLog "API başarılı yanıt") ;;;
    error <- get data "error" ;;
    if truthy error && negb (strict_eq_str error "null") && is_not_null error
    then raise error (BodyDetails data)
    else ret data.

Definition sendChatMessage
    (API_KEY : option string)
    (fetch : request -> js_error + response)
    (message : string)
    (mode : option Types.Mode)
    (sessionId : option string)
    (attachments : option (list Types.ChatAttachment))
    (reset : option bool) : M json :=
  let mode := default Types.chat mode in
  let sessionId := default "user-session-1" sessionId in
  let reset := default false reset in
  try_catch
    ((if key_missing API_KEY
      then raise (Some (JStr MSG_MISSING_KEY)) NoDetails
      else ret tt) ;;;
     let requestBody := requestBody message mode sessionId attachments reset in
     emit (ConsoleLog "API isteği gönderiliyor") ;;;
     response <- call_fetch fetch (fetch_request API_KEY requestBody) ;;
     handle_response response)
    on_error.

(** *** Observations used by the statements *)

(** The transport calls recorded in a log. *)
Fixpoint fetch_calls (t : list event) : list request :=
  match t with
  | [] => []
  | Fetch req :: r => req :: fetch_calls r
  | _ :: r => fetch_calls r
  end.

(** The request a call sends, with the defaults of the parameters filled in. *)
Definition request_of (API_KEY : option string) (message : string)
    (mode : option Types.Mode) (sessionId : option string)
    (attachments : option (list Types.ChatAttachment)) (reset : option bool)
  : request :=
  fetch_request API_KEY
    (requestBody message (default Types.chat mode)
       (default "user-session-1" sessionId) attachments (default false reset)).

(** The classification policy in the words of the specification, as the
    ordered table of its five cases, for a failed response whose body parsed
    to [errorData]: the value handed to the error as its message.  A field
    counts as present when it is truthy.  It is the definition
    [errorMessage_of] is compared with. *)
Definition policy (r : response) (errorData : json) : value :=
  let e := prop errorData "error" in
  let m := prop errorData "message" in
  if (status r =? 403)%Z then
    if strict_eq_str e "No valid api key found." || strict_eq_str m "Invalid API Key"
    then Some (JStr MSG_INVALID_KEY)
    else Some (JStr MSG_ACCESS_DENIED)
  else if (status r =? 400)%Z then
    if truthy m then m else Some (JStr MSG_INVALID_REQUEST)
  else if (status r =? 500)%Z then Some (JStr MSG_SERVER_ERROR)
  else if truthy m then m
  else if truthy e then e
  else Some (JStr (status_line r)).

(** A field of a body that is absent or a string, as the declared type
    [ApiErrorResponse] has it. *)
Definition string_or_absent (v : value) : bool :=
  match v with
  | None | Some (JStr _) => true
  | Some _ => false
  end.

(** What the catch block makes of a message that [Error] cannot convert. *)
Definition conversion_failure {A} : completion A :=
  Throw (ThrowChatApiError
           {| message := MSG_UNEXPECTED; details := CauseDetails CANNOT_CONVERT |}).

(** A [ChatApiError] as a completion. *)
Definition raises {A} (msg : string) (d : error_details) : completion A :=
  Throw (ThrowChatApiError {| message := msg; details := d |}).

(** What [throw new ChatApiError(v, d)] inside the guarded block comes to:
    the error with the text of [v], or what the catch block makes of the
    failed conversion. *)
Definition raised (v : value) (d : error_details) : completion json :=
  match render v with
  | Some msg => raises msg d
  | None => conversion_failure
  end.

End Api.

(** ** The [useSpeechRecognition] hook *)

Module Speech.
Import JS.

(** A [SpeechRecognition] instance, a caller's [onSpeechEnd] function and a
    timer handle are known by their identity.  Handles returned by
    [setTimeout] are positive, hence truthy. *)
Definition engine : Type := nat.
Definition callback : Type := nat.
Definition timer_id : Type := positive.

(** The two closures handed to [setTimeout]. *)
Inductive task : Type :=
| DispatchTask (callback : option callback) (fullText : string)
| RestartTask (onSpeechEnd : callback).

(** The hook's state and refs, then the host's pending timers and its
    counters for fresh handles and instances. *)
Record state : Type :=
  { isListening : bool;
    transcript : string;
    isSupported : bool;
    recognitionRef : option engine;
    onSpeechEndRef : option callback;
    finalTranscriptRef : string;
    isVoiceModeRef : bool;
    timeoutRef : option timer_id;
    isProcessingRef : bool;
    lastProcessedTextRef : string;
    timers : list (timer_id * task);
    next_timer : timer_id;
    next_engine : engine }.

Definition init : state :=
  {| isListening := false; transcript := ""; isSupported := false;
     recognitionRef := None; onSpeechEndRef := None;
     finalTranscriptRef := ""; isVoiceModeRef := false; timeoutRef := None;
     isProcessingRef := false; lastProcessedTextRef := "";
     timers := []; next_timer := 1%positive; next_engine := 0 |}.

Definition set_isListening (v : bool) (s : state) : state :=
  {| isListening := v; transcript := transcript s; isSupported := isSupported s;
     recognitionRef := recognitionRef s; onSpeechEndRef := onSpeechEndRef s;
     finalTranscriptRef := finalTranscriptRef s; isVoiceModeRef := isVoiceModeRef s;
     timeoutRef := timeoutRef s; isProcessingRef := isProcessingRef s;
     lastProcessedTextRef := lastProcessedTextRef s;
     timers := timers s; next_timer := next_timer s; next_engine := next_engine s |}.

Definition set_transcript (v : string) (s : state) : state :=
  {| isListening := isListening s; transcript := v; isSupported := isSupported s;
     recognitionRef := recognitionRef s; onSpeechEndRef := onSpeechEndRef s;
     finalTranscriptRef := finalTranscriptRef s; isVoiceModeRef := isVoiceModeRef s;
     timeoutRef := timeoutRef s; isProcessingRef := isProcessingRef s;
     lastProcessedTextRef := lastProcessedTextRef s;
     timers := timers s; next_timer := next_timer s; next_engine := next_engine s |}.

Definition set_isSupported (v : bool) (s : state) : state :=
  {| isListening := isListening s; transcript := transcript s; isSupported := v;
     recognitionRef := recognitionRef s; onSpeechEndRef := onSpeechEndRef s;
     finalTranscriptRef := finalTranscriptRef s; isVoiceModeRef := isVoiceModeRef s;
     timeoutRef := timeoutRef s; isProcessingRef := isProcessingRef s;
     lastProcessedTextRef := lastProcessedTextRef s;
     timers := timers s; next_timer := next_timer s; next_engine := next_engine s |}.

Definition set_recognitionRef (v : option engine) (s : state) : state :=
  {| isListening := isListening s; transcript := transcript s; isSupported := isSupported s;
     recognitionRef := v; onSpeechEndRef := onSpeechEndRef s;
     finalTranscriptRef := finalTranscriptRef s; isVoiceModeRef := isVoiceModeRef s;
     timeoutRef := timeoutRef s; isProcessingRef := isProcessingRef s;
     lastProcessedTextRef := lastProcessedTextRef s;
     timers := timers s; next_timer := next_timer s; next_engine := next_engine s |}.

Definition set_onSpeechEndRef (v : option callback) (s : state) : state :=
  {| isListening := isListening s; transcript := transcript s; isSupported := isSupported s;
     recognitionRef := recognitionRef s; onSpeechEndRef := v;
     finalTranscriptRef := finalTranscriptRef s; isVoiceModeRef := isVoiceModeRef s;
     timeoutRef := timeoutRef s; isProcessingRef := isProcessingRef s;
     lastProcessedTextRef := lastProcessedTextRef s;
     timers := timers s; next_timer := next_timer s; next_engine := next_engine s |}.

Definition set_finalTranscriptRef (v : string) (s : state) : state :=
  {| isListening := isListening s; transcript := transcript s; isSupported := isSupported s;
     recognitionRef := recognitionRef s; onSpeechEndRef := onSpeechEndRef s;
     finalTranscriptRef := v; isVoiceModeRef := isVoiceModeRef s;
     timeoutRef := timeoutRef s; isProcessingRef := isProcessingRef s;
     lastProcessedTextRef := lastProcessedTextRef s;
     timers := timers s; next_timer := next_timer s; next_engine := next_engine s |}.

Definition set_isVoiceModeRef (v : bool) (s : state) : state :=
  {| isListening := isListening s; transcript := transcript s; isSupported := isSupported s;
     recognitionRef := recognitionRef s; onSpeechEndRef := onSpeechEndRef s;
     finalTranscriptRef := finalTranscriptRef s; isVoiceModeRef := v;
     timeoutRef := timeoutRef s; isProcessingRef := isProcessingRef s;
     lastProcessedTextRef := lastProcessedTextRef s;
     timers := timers s; next_timer := next_timer s; next_engine := next_engine s |}.

Definition set_timeoutRef (v : option timer_id) (s : state) : state :=
  {| isListening := isListening s; transcript := transcript s; isSupported := isSupported s;
     recognitionRef := recognitionRef s; onSpeechEndRef := onSpeechEndRef s;
     finalTranscriptRef := finalTranscriptRef s; isVoiceModeRef := isVoiceModeRef s;
     timeoutRef := v; isProcessingRef := isProcessingRef s;
     lastProcessedTextRef := lastProcessedTextRef s;
     timers := timers s; next_timer := next_timer s; next_engine := next_engine s |}.

Definition set_isProcessingRef (v : bool) (s : state) : state :=
  {| isListening := isListening s; transcript := transcript s; isSupported := isSupported s;
     recognitionRef := recognitionRef s; onSpeechEndRef := onSpeechEndRef s;
     finalTranscriptRef := finalTranscriptRef s; isVoiceModeRef := isVoiceModeRef s;
     timeoutRef := timeoutRef s; isProcessingRef := v;
     lastProcessedTextRef := lastProcessedTextRef s;
     timers := timers s; next_timer := next_timer s; next_engine := next_engine s |}.

Definition set_lastProcessedTextRef (v : string) (s : state) : state :=
  {| isListening := isListening s; transcript := transcript s; isSupported := isSupported s;
     recognitionRef := recognitionRef s; onSpeechEndRef := onSpeechEndRef s;
     finalTranscriptRef := finalTranscriptRef s; isVoiceModeRef := isVoiceModeRef s;
     timeoutRef := timeoutRef s; isProcessingRef := isProcessingRef s;
     lastProcessedTextRef := v;
     timers := timers s; next_timer := next_timer s; next_engine := next_engine s |}.

Definition set_timers (v : list (timer_id * task)) (s : state) : state :=
  {| isListening := isListening s; transcript := transcript s; isSupported := isSupported s;
     recognitionRef := recognitionRef s; onSpeechEndRef := onSpeechEndRef s;
     finalTranscriptRef := finalTranscriptRef s; isVoiceModeRef := isVoiceModeRef s;
     timeoutRef := timeoutRef s; isProcessingRef := isProcessingRef s;
     lastProcessedTextRef := lastProcessedTextRef s;
     timers := v; next_timer := next_timer s; next_engine := next_engine s |}.

Definition set_next_timer (v : timer_id) (s : state) : state :=
  {| isListening := isListening s; transcript := transcript s; isSupported := isSupported s;
     recognitionRef := recognitionRef s; onSpeechEndRef := onSpeechEndRef s;
     finalTranscriptRef := finalTranscriptRef s; isVoiceModeRef := isVoiceModeRef s;
     timeoutRef := timeoutRef s; isProcessingRef := isProcessingRef s;
     lastProcessedTextRef := lastProcessedTextRef s;
     timers := timers s; next_timer := v; next_engine := next_engine s |}.

Definition set_next_engine (v : engine) (s : state) : state :=
  {| isListening := isListening s; transcript := transcript s; isSupported := isSupported s;
     recognitionRef := recognitionRef s; onSpeechEndRef := onSpeechEndRef s;
     finalTranscriptRef := finalTranscriptRef s; isVoiceModeRef := isVoiceModeRef s;
     timeoutRef := timeoutRef s; isProcessingRef := isProcessingRef s;
     lastProcessedTextRef := lastProcessedTextRef s;
     timers := timers s; next_timer := next_timer s; next_engine := v |}.

(** What the hook does to the outside world. *)
Inductive event : Type :=
| ConsoleLog (tag : string)
| ConsoleError (tag : string)
| Alert (text : string)
| PermissionsQuery
| GetUserMedia
| TrackStop
| EngineNew (e : engine)
| EngineStart (e : engine)
| EngineStop (e : engine)
| EngineAbort (e : engine)
| SetTimeout (id : timer_id) (delay : nat) (t : task)
| ClearTimeout (id : timer_id)
| Invoke (cb : callback) (text : string).

(** A synchronous piece of the hook: the next state and what it did. *)
Definition action : Type := state -> state * list event.

Definition skip : action := fun s => (s, []).

Definition emit (ev : event) : action := fun s => (s, [ev]).

Definition modify (f : state -> state) : action := fun s => (f s, []).

Definition seq (a b : action) : action :=
  fun s => let (s1, t1) := a s in let (s2, t2) := b s1 in (s2, (t1 ++ t2)%list).

Notation "a >> b" := (seq a b) (at level 61, right associativity).

Definition when (c : state -> bool) (a : action) : action :=
  fun s => if c s then a s else (s, []).

(** *** The host's timers *)

Definition remove_timer (id : timer_id) (l : list (timer_id * task))
  : list (timer_id * task) :=
  filter (fun p => negb (Pos.eqb (fst p) id)) l.

Fixpoint find_timer (id : timer_id) (l : list (timer_id * task)) : option task :=
  match l with
  | [] => None
  | (i, t) :: r => if Pos.eqb i id then Some t else find_timer id r
  end.

(** [clearTimeout(id)]. *)
Definition clearTimeout (id : timer_id) : action :=
  emit (ClearTimeout id) >> modify (fun s => set_timers (remove_timer id (timers s)) s).

(** [setTimeout(t, delay)]: the fresh handle is the host's next one. *)
Definition setTimeout (t : task) (delay : nat) (s : state) : timer_id * (state * list event) :=
  let id := next_timer s in
  (id, (set_next_timer (Pos.succ id) (set_timers (timers s ++ [(id, t)])%list s),
        [SetTimeout id delay t])).

(** *** The platform a call of [startListening] meets *)

Inductive permission_state : Type := granted | denied | prompt.

Record platform : Type :=
  { has_permissions : bool;
    permissions_query : js_error + permission_state;
    getUserMedia : js_error + nat;
    SpeechRecognition : bool;
    construct : option js_error;
    start : option js_error }.

Definition ALERT_MICROPHONE : string :=
  "Mikrofon erişimi reddedildi. Lütfen tarayıcı ayarlarından mikrofon iznini verin ve sayfayı yenileyin.".

(** Lines 45-51: the effect run on mount. *)
Definition mount (p : platform) : action :=
  when (fun _ => SpeechRecognition p) (modify (set_isSupported true)).

(** Lines 53-64. *)
Definition cleanup : action :=
  (fun s =>
     match timeoutRef s with
     | Some id => (clearTimeout id >> modify (set_timeoutRef None)) s
     | None => (s, [])
     end) >>
  (fun s =>
     match recognitionRef s with
     | Some r => (emit (EngineAbort r) >> modify (set_recognitionRef None)) s
     | None => (s, [])
     end) >>
  modify (set_isListening false) >>
  modify (set_isProcessingRef false).

(** Lines 66-84: the answer and what was probed to get it. *)
Definition checkMicrophonePermission (p : platform) : bool * list event :=
  let probe :=
    match getUserMedia p with
    | inl _ => (false, [GetUserMedia; ConsoleError "Mikrofon izni kontrolü hatası"])
    | inr tracks => (true, (GetUserMedia :: repeat TrackStop tracks)%list)
    end in
  if has_permissions p then
    match permissions_query p with
    | inl _ => (false, [PermissionsQuery; ConsoleError "Mikrofon izni kontrolü hatası"])
    | inr denied => (false, [PermissionsQuery])
    | inr _ => (fst probe, (PermissionsQuery :: snd probe)%list)
    end
  else probe.

(** How the promise of an [async] call settles. *)
Inductive outcome : Type :=
| Resolved
| Rejected (e : js_error).

(** *** The engine's handlers (lines 120-194) *)

Record SpeechRecognitionResult : Type :=
  { isFinal : bool; alternative0 : string }.

Record SpeechRecognitionEvent : Type :=
  { results : list SpeechRecognitionResult; resultIndex : nat }.

(** The loop of lines 130-140 over [results[resultIndex..]]: the interim
    text, the final text of this event, and the running final buffer. *)
Fixpoint collect (l : list SpeechRecognitionResult) (acc : string * string * string)
  : string * string * string :=
  match l with
  | [] => acc
  | result :: r =>
      let '(interimTranscript, finalTranscript, buffer) := acc in
      if isFinal result
      then collect r (interimTranscript,
                      finalTranscript ++ alternative0 result,
                      buffer ++ alternative0 result)
      else collect r (interimTranscript ++ alternative0 result, finalTranscript, buffer)
  end.

Definition nonempty (s : string) : bool := negb (s =? "").

Definition is_some {A} (o : option A) : bool :=
  match o with Some _ => true | None => false end.

Definition onstart (recognition : engine) : action :=
  emit (ConsoleLog "Speech recognition started") >>
  modify (set_isListening true) >>
  modify (set_transcript "").

Definition onresult (recognition : engine) (event : SpeechRecognitionEvent) : action :=
  fun s =>
    let '(interimTranscript, finalTranscript, buffer) :=
      collect (skipn (resultIndex event) (results event))
              (EmptyString, EmptyString, finalTranscriptRef s) in
    let s1 := set_finalTranscriptRef buffer s in
    let currentTranscript := finalTranscriptRef s1 ++ interimTranscript in
    (emit (ConsoleLog "Transcript updated") >>
     modify (set_transcript currentTranscript) >>
     when (fun s => nonempty finalTranscript && isVoiceModeRef s
                    && is_some (onSpeechEndRef s) && negb (isProcessingRef s))
       (fun s =>
          let fullText := trim (finalTranscriptRef s) in
          (emit (ConsoleLog "Final result for voice mode") >>
           when (fun s => nonempty fullText
                          && negb (fullText =? lastProcessedTextRef s)
                          && (2 <? utf16_length fullText)%nat)
             (modify (set_isProcessingRef true) >>
              modify (set_lastProcessedTextRef fullText) >>
              emit (EngineStop recognition) >>
              (fun s => snd (setTimeout (DispatchTask (onSpeechEndRef s) fullText) 100 s))))
            s)) s1.

Definition onend (recognition : engine) : action :=
  emit (ConsoleLog "Speech recognition ended") >>
  modify (set_isListening false) >>
  modify (set_recognitionRef None) >>
  when (fun s => negb (isVoiceModeRef s) && nonempty (finalTranscriptRef s))
    (emit (ConsoleLog "Keeping transcript for manual input") >>
     (fun s => modify (set_transcript (finalTranscriptRef s)) s)).

Definition onerror (recognition : engine) (error : string) : action :=
  (if error =? "aborted" then
     emit (ConsoleLog "Speech recognition was aborted (normal operation)")
   else if error =? "not-allowed" then
     emit (ConsoleError "Microphone permission denied") >> emit (Alert ALERT_MICROPHONE)
   else emit (ConsoleError "Speech recognition error")) >>
  modify (set_isListening false) >>
  modify (set_recognitionRef None) >>
  modify (set_isProcessingRef false).

(** *** The operations the hook returns *)

(** [startListening] is an [async] function with one [await], at line 90.
    Up to it the call reads [isSupported] and writes nothing; the permission
    check it awaits touches no state of the hook.  What follows the await,
    lines 91 to 203, has no further [await] and runs in one piece, in the
    state the hook is in by then. *)

(** Lines 86-90: the call up to its [await].  On a supported hook the
    permission check is started; its probes, which touch nothing of the
    hook, are logged with its start. *)
Definition startListening_begin (p : platform) : action :=
  fun s =>
    if negb (isSupported s) then (s, [])
    else (s, snd (checkMicrophonePermission p)).

(** Lines 91-203: the call from the answer of the permission check on. *)
Definition startListening_resume (p : platform) (onSpeechEnd : option callback) (s : state)
  : state * list event * outcome :=
  let hasPermission := fst (checkMicrophonePermission p) in
  if negb hasPermission then (s, [Alert ALERT_MICROPHONE], Resolved)
  else if negb (SpeechRecognition p) then (s, [], Resolved)
  else
    let (s1, t1) :=
      (cleanup >>
       emit (ConsoleLog "Starting speech recognition") >>
       modify (set_isVoiceModeRef (is_some onSpeechEnd)) >>
       modify (set_onSpeechEndRef onSpeechEnd) >>
       modify (set_finalTranscriptRef "") >>
       modify (set_isProcessingRef false) >>
       modify (set_lastProcessedTextRef "")) s in
    match construct p with
    | Some e => (s1, t1, Rejected e)
    | None =>
        let recognition := next_engine s1 in
        let (s2, t2) :=
          (emit (EngineNew recognition) >>
           modify (set_next_engine (S recognition)) >>
           modify (set_recognitionRef (Some recognition))) s1 in
        let (s3, t3) :=
          match start p with
          | Some e =>
              (emit (ConsoleError "Error starting recognition") >>
               modify (set_isListening false) >>
               modify (set_recognitionRef None) >>
               modify (set_isProcessingRef false)) s2
          | None => emit (EngineStart recognition) s2
          end in
        (s3, (t1 ++ t2 ++ t3)%list, Resolved)
    end.

(** Lines 86-204: a call during whose [await] nothing else runs. *)
Definition startListening (p : platform) (onSpeechEnd : option callback) (s : state)
  : state * list event * outcome :=
  if negb (isSupported s) then (s, [], Resolved)
  else
    let (s0, probed) := startListening_begin p s in
    let '(s1, t, settled) := startListening_resume p onSpeechEnd s0 in
    (s1, (probed ++ t)%list, settled).

(** Lines 206-213. *)
Definition stopListening : action :=
  emit (ConsoleLog "Stopping speech recognition") >>
  modify (set_isVoiceModeRef false) >>
  modify (set_onSpeechEndRef None) >>
  modify (set_isProcessingRef false) >>
  modify (set_lastProcessedTextRef "") >>
  cleanup.

(** Lines 215-221. *)
Definition resetTranscript : action :=
  emit (ConsoleLog "Resetting transcript") >>
  modify (set_transcript "") >>
  modify (set_finalTranscriptRef "") >>
  modify (set_lastProcessedTextRef "") >>
  modify (set_isProcessingRef false).

(** Lines 224-241. *)
Definition restartListening (onSpeechEnd : callback) : action :=
  emit (ConsoleLog "Restarting listening for voice mode") >>
  (fun s =>
     match timeoutRef s with
     | Some id => clearTimeout id s
     | None => (s, [])
     end) >>
  modify (set_isProcessingRef false) >>
  (fun s =>
     let '(id, (s1, t1)) := setTimeout (RestartTask onSpeechEnd) 1500 s in
     (set_timeoutRef (Some id) s1, t1)).

(** A pending timer fires: it leaves the host's queue and its closure runs,
    up to the [await] of the call of [startListening] that the restart
    closure makes.  A handle that is not pending fires nothing. *)
Definition fire_timer_begin (p : platform) (id : timer_id) : action :=
  fun s =>
    match find_timer id (timers s) with
    | None => (s, [])
    | Some t =>
        let s1 := set_timers (remove_timer id (timers s)) s in
        match t with
        | DispatchTask (Some callback) fullText => (s1, [Invoke callback fullText])
        | DispatchTask None _ => (s1, [])
        | RestartTask onSpeechEnd =>
            if isVoiceModeRef s1
            then startListening_begin p s1
            else (s1, [])
        end
    end.

(** The same, when nothing else runs during that [await]: the restart's
    call of [startListening] runs to its end. *)
Definition fire_timer (p : platform) (id : timer_id) : action :=
  fun s =>
    match find_timer id (timers s) with
    | None => (s, [])
    | Some t =>
        let s1 := set_timers (remove_timer id (timers s)) s in
        match t with
        | DispatchTask (Some callback) fullText => (s1, [Invoke callback fullText])
        | DispatchTask None _ => (s1, [])
        | RestartTask onSpeechEnd =>
            if isVoiceModeRef s1
            then fst (startListening p (Some onSpeechEnd) s1)
            else (s1, [])
        end
    end.

(** *** The hook as a machine *)

(** What can happen to the hook.  [CallStart] and [TimerFires] are a call
    of [startListening], and the firing of a timer, during whose [await]
    nothing else happens.  [StartBegins], [TimerBegins] and [StartResumes]
    are their halves, before and after the [await], between which anything
    else can happen.  The machine keeps no record of the calls that are
    awaiting: it lets a call resume at any time, so that its runs include
    every run of the hook. *)
Inductive input : Type :=
| Mount (p : platform)
| CallStart (p : platform) (onSpeechEnd : option callback)
| CallStop
| CallReset
| CallRestart (onSpeechEnd : callback)
| OnStart (recognition : engine)
| OnResult (recognition : engine) (event : SpeechRecognitionEvent)
| OnEnd (recognition : engine)
| OnError (recognition : engine) (error : string)
| TimerFires (p : platform) (id : timer_id)
| StartBegins (p : platform)
| StartResumes (p : platform) (onSpeechEnd : option callback)
| TimerBegins (p : platform) (id : timer_id).

Definition step (i : input) : action :=
  match i with
  | Mount p => mount p
  | CallStart p onSpeechEnd => fun s => fst (startListening p onSpeechEnd s)
  | CallStop => stopListening
  | CallReset => resetTranscript
  | CallRestart onSpeechEnd => restartListening onSpeechEnd
  | OnStart r => onstart r
  | OnResult r ev => onresult r ev
  | OnEnd r => onend r
  | OnError r e => onerror r e
  | TimerFires p id => fire_timer p id
  | StartBegins p => startListening_begin p
  | StartResumes p onSpeechEnd => fun s => fst (startListening_resume p onSpeechEnd s)
  | TimerBegins p id => fire_timer_begin p id
  end.

Fixpoint run (l : list input) : action :=
  match l with
  | [] => skip
  | i :: r => step i >> run r
  end.

(** Every timer pending in [s] fires, oldest first. *)
Fixpoint fire_all (p : platform) (ids : list timer_id) : action :=
  match ids with
  | [] => skip
  | id :: r => fire_timer p id >> fire_all p r
  end.

Definition drain (p : platform) : action :=
  fun s => fire_all p (map fst (timers s)) s.

(** *** Observations used by the statements *)

(** The texts handed to a dispatch timer in a log. *)
Fixpoint dispatched (t : list event) : list string :=
  match t with
  | [] => []
  | SetTimeout _ _ (DispatchTask _ fullText) :: r => fullText :: dispatched r
  | _ :: r => dispatched r
  end.

(** The callback invocations of a log. *)
Fixpoint invocations (t : list event) : list (callback * string) :=
  match t with
  | [] => []
  | Invoke cb text :: r => (cb, text) :: invocations r
  | _ :: r => invocations r
  end.

Definition is_restart (t : task) : bool :=
  match t with RestartTask _ => true | DispatchTask _ _ => false end.

(** The pending timers of either kind. *)
Definition pending_restarts (s : state) : list (timer_id * task) :=
  filter (fun p => is_restart (snd p)) (timers s).

Definition pending_dispatches (s : state) : list (timer_id * task) :=
  filter (fun p => negb (is_restart (snd p))) (timers s).

(** The gate of lines 148 and 153 for a result event arriving in [s]. *)
Definition gate (event : SpeechRecognitionEvent) (s : state) : bool :=
  let '(_, finalTranscript, buffer) :=
    collect (skipn (resultIndex event) (results event))
            (EmptyString, EmptyString, finalTranscriptRef s) in
  let fullText := trim buffer in
  nonempty finalTranscript && isVoiceModeRef s && is_some (onSpeechEndRef s)
  && negb (isProcessingRef s)
  && nonempty fullText && negb (fullText =? lastProcessedTextRef s)
  && (2 <? utf16_length fullText)%nat.

(** The accumulated, trimmed final text once [event] has arrived in [s]. *)
Definition fullText_after (event : SpeechRecognitionEvent) (s : state) : string :=
  let '(_, _, buffer) :=
    collect (skipn (resultIndex event) (results event))
            (EmptyString, EmptyString, finalTranscriptRef s) in
  trim buffer.

(** An engine-facing event that only the handlers can produce. *)
Definition engine_effect (ev : event) : bool :=
  match ev with
  | EngineNew _ | EngineStart _ | EngineStop _ | EngineAbort _ => true
  | _ => false
  end.

(** A finalized segment is among the results the handler reads. *)
Definition has_final (event : SpeechRecognitionEvent) : bool :=
  existsb isFinal (skipn (resultIndex event) (results event)).

(** A result event that carries one finalized segment. *)
Definition final_event (text : string) : SpeechRecognitionEvent :=
  {| results := [ {| isFinal := true; alternative0 := text |} ]; resultIndex := 0 |}.

(** A sequence of result events, each from some engine instance. *)
Definition results_of (l : list (engine * SpeechRecognitionEvent)) : list input :=
  map (fun p => OnResult (fst p) (snd p)) l.

(** The pending timers once the handle held in [timeoutRef] is cleared. *)
Definition cancel (ref : option timer_id) (tm : list (timer_id * task))
  : list (timer_id * task) :=
  match ref with
  | Some id => remove_timer id tm
  | None => tm
  end.

(** The bookkeeping of timers: handles are fresh and distinct, the pending
    restart timer is the one held in [timeoutRef], and [timeoutRef] never
    holds the handle of a dispatch timer. *)
Definition tracked (tm : list (timer_id * task)) (ref : option timer_id) (nx : timer_id)
  : Prop :=
  (forall id t, In (id, t) tm -> (id < nx)%positive)
  /\ (forall id, ref = Some id -> (id < nx)%positive)
  /\ (forall id cb, In (id, RestartTask cb) tm -> ref = Some id)
  /\ (forall id cb text, In (id, DispatchTask cb text) tm -> ref <> Some id)
  /\ NoDup (map fst tm).

Definition timers_tracked (s : state) : Prop :=
  tracked (timers s) (timeoutRef s) (next_timer s).

(** The states the hook can be in: those some sequence of inputs leads to. *)
Definition reachable (s : state) : Prop :=
  exists l : list input, s = fst (run l init).

(** [cleanup] got to run in a call of [startListening]. *)
Definition reaches_cleanup (p : platform) (s : state) : bool :=
  isSupported s && fst (checkMicrophonePermission p) && SpeechRecognition p.

(** [cleanup] gets to run in a call that resumes on [p]. *)
Definition resumes_to_cleanup (p : platform) : bool :=
  fst (checkMicrophonePermission p) && SpeechRecognition p.

End Speech.

(** * Sample inputs *)

Module Samples.
Import JS.

(** A [ChatResponse] body with a chosen [error]. *)
Definition body_with_error (e : json) : json :=
  JObj [("id", JStr "1"); ("type", JStr "textResponse"); ("textResponse", JStr "hi");
        ("sources", JArr []); ("close", JBool false); ("error", e)].

(** A transport that answers every request with one response. *)
Definition respond (st : Z) (text : string) (b : js_error + json)
  : Api.request -> js_error + Api.response :=
  fun _ => inr {| Api.status := st; Api.statusText := text; Api.json_body := b |}.

(** A transport whose [fetch] rejects with a [TypeError]. *)
Definition offline (text : string) : Api.request -> js_error + Api.response :=
  fun _ => inl {| err_class := TypeError; err_message := text |}.

Definition photo : Types.ChatAttachment :=
  {| Types.name := "a.png"; Types.mime := "image/png";
     Types.contentString := "data:image/png;base64,AAAA" |}.

(** A browser with the engine and a granted microphone. *)
Definition browser : Speech.platform :=
  {| Speech.has_permissions := true;
     Speech.permissions_query := inr Speech.granted;
     Speech.getUserMedia := inr 1;
     Speech.SpeechRecognition := true;
     Speech.construct := None;
     Speech.start := None |}.

Definition failure : js_error :=
  {| err_class := OtherError; err_message := "InvalidStateError" |}.

(** The same browser with a constructor that throws, and with a [start]
    that throws. *)
Definition browser_construct_throws : Speech.platform :=
  {| Speech.has_permissions := true;
     Speech.permissions_query := inr Speech.granted;
     Speech.getUserMedia := inr 1;
     Speech.SpeechRecognition := true;
     Speech.construct := Some failure;
     Speech.start := None |}.

Definition browser_start_throws : Speech.platform :=
  {| Speech.has_permissions := true;
     Speech.permissions_query := inr Speech.granted;
     Speech.getUserMedia := inr 1;
     Speech.SpeechRecognition := true;
     Speech.construct := None;
     Speech.start := Some failure |}.

(** A mounted hook, and a voice-mode session of callback 7 on engine 0 that
    has started. *)
Definition mounted : Speech.state :=
  fst (Speech.run [Speech.Mount browser] Speech.init).

Definition voice_session : Speech.state :=
  fst (Speech.run [Speech.Mount browser; Speech.CallStart browser (Some 7);
                   Speech.OnStart 0] Speech.init).

(** The voice session once a first utterance has been handed to the
    dispatch timer, and once the caller has asked for a restart. *)
Definition dispatching : Speech.state :=
  fst (Speech.run [Speech.OnResult 0 (Speech.final_event "merhaba")] voice_session).

Definition awaiting_restart : Speech.state :=
  fst (Speech.run [Speech.CallRestart 7] voice_session).

End Samples.

(** * Further observations of the two components *)

Module Observations.
Import JS.

(** The value of a header in a request, first binding first. *)
Fixpoint header (k : string) (l : list (string * string)) : option string :=
  match l with
  | [] => None
  | (k', v) :: r => if k' =? k then Some v else header k r
  end.

(** The key a call holds when [!API_KEY] is false. *)
Definition key_of (API_KEY : option string) : string :=
  match API_KEY with Some k => k | None => EmptyString end.

(** The text of the finalized, and of the interim, segments of a list of
    results, in order. *)
Fixpoint finals (l : list Speech.SpeechRecognitionResult) : string :=
  match l with
  | [] => EmptyString
  | result :: r =>
      if Speech.isFinal result
      then Speech.alternative0 result ++ finals r
      else finals r
  end.

Fixpoint interims (l : list Speech.SpeechRecognitionResult) : string :=
  match l with
  | [] => EmptyString
  | result :: r =>
      if Speech.isFinal result
      then interims r
      else Speech.alternative0 result ++ interims r
  end.

(** The segments a result event hands to the handler. *)
Definition segments (event : Speech.SpeechRecognitionEvent)
  : list Speech.SpeechRecognitionResult :=
  skipn (Speech.resultIndex event) (Speech.results event).

(** The finalized text of a sequence of result events. *)
Fixpoint all_finals (l : list (Speech.engine * Speech.SpeechRecognitionEvent)) : string :=
  match l with
  | [] => EmptyString
  | p :: r => finals (segments (snd p)) ++ all_finals r
  end.

(** The calls to engines in a log. *)
Definition engine_effects (t : list Speech.event) : list Speech.event :=
  filter Speech.engine_effect t.

(** What a user or the platform can notice of a log: engine calls,
    permission probes, alerts and callback invocations. *)
Definition noticeable (ev : Speech.event) : bool :=
  match ev with
  | Speech.ConsoleLog _ | Speech.ConsoleError _ => false
  | Speech.SetTimeout _ _ _ | Speech.ClearTimeout _ => false
  | _ => true
  end.

(** The number of released tracks in a log. *)
Fixpoint released (t : list Speech.event) : nat :=
  match t with
  | [] => 0
  | Speech.TrackStop :: r => S (released r)
  | _ :: r => released r
  end.

(** The inputs a hook can get on a platform without the engine: no engine
    exists, so none reports events, every mount finds no constructor, and,
    no call getting past the support test, none resumes. *)
Definition engineless (i : Speech.input) : bool :=
  match i with
  | Speech.Mount p => negb (Speech.SpeechRecognition p)
  | Speech.CallStart _ _ | Speech.CallStop | Speech.CallReset
  | Speech.CallRestart _ | Speech.TimerFires _ _
  | Speech.StartBegins _ | Speech.TimerBegins _ _ => true
  | Speech.OnStart _ | Speech.OnResult _ _ | Speech.OnEnd _ | Speech.OnError _ _ => false
  | Speech.StartResumes _ _ => false
  end.

(** The hook has never got hold of an engine. *)
Definition dormant (s : Speech.state) : Prop :=
  Speech.isSupported s = false
  /\ Speech.isVoiceModeRef s = false
  /\ Speech.recognitionRef s = None
  /\ Speech.isListening s = false
  /\ forallb (fun p => Speech.is_restart (snd p)) (Speech.timers s) = true.

(** The engine held by the hook is one that was created. *)
Definition engine_known (s : Speech.state) : Prop :=
  forall r, Speech.recognitionRef s = Some r -> r < Speech.next_engine s.

(** A browser whose permission query answers "denied", and one without the
    engine. *)
Definition browser_denied : Speech.platform :=
  {| Speech.has_permissions := true;
     Speech.permissions_query := inr Speech.denied;
     Speech.getUserMedia := inr 1;
     Speech.SpeechRecognition := true;
     Speech.construct := None;
     Speech.start := None |}.

Definition browser_without_engine : Speech.platform :=
  {| Speech.has_permissions := true;
     Speech.permissions_query := inr Speech.granted;
     Speech.getUserMedia := inr 1;
     Speech.SpeechRecognition := false;
     Speech.construct := None;
     Speech.start := None |}.

(** A manual session of two result events: an interim guess, then the
    finalized text. *)
Definition dictation : list (Speech.engine * Speech.SpeechRecognitionEvent) :=
  [(0, {| Speech.results := [ {| Speech.isFinal := false; Speech.alternative0 := "mer" |} ];
          Speech.resultIndex := 0 |});
   (0, Speech.final_event "merhaba")].

End Observations.

(** * Properties of [sendChatMessage] *)

Module ApiFacts.
Import JS Api Samples.

(** ** The log and exception combinators *)

Lemma bind_throw {A B} (t : list event) (e : thrown) (f : A -> M B) :
  bind (t, Throw e) f = (t, Throw e).
Proof. reflexivity. Qed.

Lemma bind_return {A B} (t : list event) (a : A) (f : A -> M B) :
  bind (t, Return a) f = ((t ++ fst (f a))%list, snd (f a)).
Proof. unfold bind. destruct (f a); reflexivity. Qed.

Lemma bind_throw_l {A B} (e : thrown) (f : A -> M B) : bind (throw e) f = throw e.
Proof. reflexivity. Qed.

Lemma bind_ret {A B} (a : A) (f : A -> M B) : bind (ret a) f = f a.
Proof. unfold bind, ret. destruct (f a); reflexivity. Qed.

Lemma bind_emit {B} (ev : event) (f : unit -> M B) :
  bind (emit ev) f = ((ev :: fst (f tt))%list, snd (f tt)).
Proof. unfold bind, emit. destruct (f tt); reflexivity. Qed.

Lemma try_catch_return {A} (t : list event) (a : A) (h : thrown -> M A) :
  try_catch (t, Return a) h = (t, Return a).
Proof. reflexivity. Qed.

Lemma try_catch_throw {A} (t : list event) (e : thrown) (h : thrown -> M A) :
  try_catch (t, Throw e) h = ((t ++ fst (h e))%list, snd (h e)).
Proof. unfold try_catch. destruct (h e); reflexivity. Qed.

Lemma fetch_calls_app (t u : list event) :
  fetch_calls (t ++ u) = (fetch_calls t ++ fetch_calls u)%list.
Proof.
  induction t as [|ev t IH]; [reflexivity|].
  destruct ev; simpl; rewrite IH; reflexivity.
Qed.

(** ** The catch block *)

Lemma on_error_ChatApiError (e : ChatApiError) :
  on_error (ThrowChatApiError e) = ([], Throw (ThrowChatApiError e)).
Proof. reflexivity. Qed.

Lemma on_error_Error (e : js_error) :
  snd (on_error (ThrowError e)) =
  raises (if is_TypeError e && includes "fetch" (err_message e)
          then MSG_NETWORK else MSG_UNEXPECTED) (CauseDetails e).
Proof.
  unfold on_error. destruct (is_TypeError e && includes "fetch" (err_message e)); reflexivity.
Qed.

Lemma on_error_no_fetch (e : thrown) : fetch_calls (fst (on_error e)) = [].
Proof.
  destruct e as [e|e]; [reflexivity|].
  unfold on_error. destruct (is_TypeError e && includes "fetch" (err_message e)); reflexivity.
Qed.

Lemma on_error_throws_ChatApiError (e : thrown) :
  exists c, snd (on_error e) = Throw (ThrowChatApiError c).
Proof.
  destruct e as [c|e]; [exists c; reflexivity|].
  rewrite on_error_Error. eexists; reflexivity.
Qed.

Lemma guarded_never_throws_Error {A} (m : M A) (h : thrown -> M A) :
  (forall e, exists c, snd (h e) = Throw (ThrowChatApiError c)) ->
  forall e, snd (try_catch m h) <> Throw (ThrowError e).
Proof.
  intros Hh e. destruct m as [t [a|x]].
  - rewrite try_catch_return. discriminate.
  - rewrite try_catch_throw. simpl. destruct (Hh x) as [c Hc]. rewrite Hc. discriminate.
Qed.

Lemma guarded_passes_ChatApiError (t : list event) (c : ChatApiError) :
  try_catch (t, Throw (ThrowChatApiError c)) on_error = (t, Throw (ThrowChatApiError c)).
Proof. rewrite try_catch_throw. simpl. rewrite app_nil_r. reflexivity. Qed.

Lemma raise_eq {A} (v : value) (d : error_details) :
  @raise A v d
  = ([], match render v with
         | Some msg => Throw (ThrowChatApiError {| message := msg; details := d |})
         | None => Throw (ThrowError CANNOT_CONVERT)
         end).
Proof. unfold raise, new_ChatApiError. destruct (render v); reflexivity. Qed.

Lemma guarded_raise (t : list event) (v : value) (d : error_details) :
  snd (try_catch (t, snd (@raise json v d)) on_error) = raised v d
  /\ fetch_calls (fst (try_catch (t, snd (@raise json v d)) on_error)) = fetch_calls t.
Proof.
  rewrite raise_eq. unfold raised. cbn [snd]. destruct (render v).
  - rewrite guarded_passes_ChatApiError. split; reflexivity.
  - rewrite try_catch_throw. cbn [fst snd]. split; [reflexivity|].
    rewrite fetch_calls_app. cbn. apply app_nil_r.
Qed.

Lemma raised_never_returns (v : value) (d : error_details) (data : json) :
  raised v d <> Return data.
Proof. unfold raised. destruct (render v); discriminate. Qed.

(** ** The inner classification *)

Lemma get_not_null (v : json) (k : string) :
  v <> JNull -> get v k = ([], Return (prop v k)).
Proof. destruct v; intros H; try reflexivity. contradiction. Qed.

Lemma errorMessage_of_returns (r : response) :
  exists t v, errorMessage_of r = (t, Return v) /\ fetch_calls t = [].
Proof.
  unfold errorMessage_of, response_json.
  destruct (json_body r) as [e|errorData].
  - simpl. eexists _, _. split; reflexivity.
  - destruct errorData; simpl;
      repeat match goal with
        | |- context [if ?c then _ else _] => destruct c; simpl
        end;
      eexists _, _; split; reflexivity.
Qed.

Lemma errorMessage_of_parse_failure (r : response) (e : js_error) :
  json_body r = inl e ->
  snd (errorMessage_of r) = Return (Some (JStr (status_line r))).
Proof. intros H. unfold errorMessage_of, response_json. rewrite H. reflexivity. Qed.

Lemma errorMessage_of_policy (r : response) (errorData : json) :
  json_body r = inr errorData ->
  errorData <> JNull ->
  snd (errorMessage_of r) = Return (policy r errorData).
Proof.
  intros Hbody Hnn. unfold errorMessage_of, response_json, policy. rewrite Hbody.
  rewrite bind_ret, bind_emit.
  destruct (status r =? 403)%Z.
  { rewrite (get_not_null _ "error" Hnn), bind_return. cbn [fst snd app].
    destruct (strict_eq_str (prop errorData "error") "No valid api key found.").
    - reflexivity.
    - rewrite (get_not_null _ "message" Hnn), bind_return. cbn [fst snd app orb].
      destruct (strict_eq_str (prop errorData "message") "Invalid API Key");
        reflexivity. }
  destruct (status r =? 400)%Z.
  { rewrite (get_not_null _ "message" Hnn), bind_return. cbn [fst snd app ret].
    destruct (truthy (prop errorData "message")); reflexivity. }
  destruct (status r =? 500)%Z.
  { reflexivity. }
  rewrite (get_not_null _ "message" Hnn), bind_return. cbn [fst snd app].
  destruct (truthy (prop errorData "message")).
  { reflexivity. }
  rewrite (get_not_null _ "error" Hnn), bind_return. cbn [fst snd app].
  destruct (truthy (prop errorData "error")); reflexivity.
Qed.

Lemma render_string_or_absent (v : value) :
  string_or_absent v = true -> exists msg, render v = Some msg.
Proof. destruct v as [[| | | | |]|]; simpl; try discriminate; eexists; reflexivity. Qed.

Lemma policy_converts (r : response) (errorData : json) :
  string_or_absent (prop errorData "message") = true ->
  string_or_absent (prop errorData "error") = true ->
  exists msg, render (policy r errorData) = Some msg.
Proof.
  intros Hm He. unfold policy.
  repeat match goal with
    | |- context [if ?c then _ else _] => destruct c
    end;
    try (eexists; reflexivity);
    apply render_string_or_absent; assumption.
Qed.

(** ** From the call to the response *)

Lemma handle_response_no_fetch (r : response) :
  fetch_calls (fst (try_catch (handle_response r) on_error)) = [].
Proof.
  unfold handle_response. rewrite bind_emit.
  destruct (negb (ok r)).
  - destruct (errorMessage_of_returns r) as (t & v & Hm & Ht). rewrite Hm.
    rewrite bind_return. rewrite raise_eq. cbn [fst snd]. rewrite app_nil_r.
    destruct (guarded_raise (ConsoleLog "API yanıtı alındı" :: t) v
                (StatusDetails (status r) (statusText r))) as [_ H].
    rewrite raise_eq in H. cbn [snd] in H. rewrite H. exact Ht.
  - unfold response_json. destruct (json_body r) as [e|data].
    + rewrite bind_throw_l. cbn [fst snd throw app].
      rewrite try_catch_throw. cbn [fst snd app fetch_calls].
      apply on_error_no_fetch.
    + rewrite bind_ret.
      destruct data; simpl;
        repeat match goal with
          | |- context [if ?c then _ else _] => destruct c; simpl
          end;
        rewrite ?raise_eq;
        try match goal with
          | |- context [render ?v] => destruct (render v)
          end;
        reflexivity.
Qed.

Lemma handle_response_failed (r : response) :
  ok r = false ->
  exists v, snd (errorMessage_of r) = Return v
    /\ snd (try_catch (handle_response r) on_error)
       = raised v (StatusDetails (status r) (statusText r)).
Proof.
  intros Hok. destruct (errorMessage_of_returns r) as (t & v & Hm & _).
  exists v. split; [rewrite Hm; reflexivity|].
  unfold handle_response. rewrite bind_emit, Hok. cbn [negb].
  rewrite Hm, bind_return. rewrite raise_eq. cbn [fst snd]. rewrite app_nil_r.
  destruct (guarded_raise (ConsoleLog "API yanıtı alındı" :: t) v
              (StatusDetails (status r) (statusText r))) as [H _].
  rewrite raise_eq in H. cbn [snd] in H. exact H.
Qed.

Lemma truthy_is_not_null (v : value) : truthy v = true -> is_not_null v = true.
Proof. destruct v as [[| | | | |]|]; simpl; congruence. Qed.

Lemma handle_response_ok (r : response) (data : json) :
  ok r = true ->
  json_body r = inr data ->
  data <> JNull ->
  snd (try_catch (handle_response r) on_error)
  = if truthy (prop data "error") && negb (strict_eq_str (prop data "error") "null")
    then raised (prop data "error") (BodyDetails data)
    else Return data.
Proof.
  intros Hok Hbody Hnn. unfold handle_response, response_json.
  rewrite bind_emit, Hok, Hbody. cbn [negb].
  rewrite bind_ret, (get_not_null _ "id" Hnn), bind_return. cbn [fst snd app].
  rewrite bind_emit, (get_not_null _ "error" Hnn). cbn [fst snd].
  rewrite bind_return. cbn [fst snd app].
  destruct (truthy (prop data "error")) eqn:Ht.
  - rewrite (truthy_is_not_null _ Ht), andb_true_r. cbn [andb].
    destruct (negb (strict_eq_str (prop data "error") "null")); [|reflexivity].
    rewrite raise_eq. cbn [fst snd].
    destruct (guarded_raise
                [ConsoleLog "API yanıtı alındı"; ConsoleLog "API başarılı yanıt"]
                (prop data "error") (BodyDetails data)) as [H _].
    rewrite raise_eq in H. cbn [snd] in H. exact H.
  - reflexivity.
Qed.

(** ** One call of [sendChatMessage] *)

Section Call.

Variable K : option string.
Variable fetch : request -> js_error + response.
Variable message : string.
Variable mode : option Types.Mode.
Variable sessionId : option string.
Variable attachments : option (list Types.ChatAttachment).
Variable reset : option bool.

Local Notation "'call'" :=
  (sendChatMessage K fetch message mode sessionId attachments reset).
Local Notation "'the_request'" :=
  (request_of K message mode sessionId attachments reset).

Lemma sendChatMessage_missing_key :
  key_missing K = true ->
  call
  = ([], raises MSG_MISSING_KEY NoDetails).
Proof.
  intros HK. unfold sendChatMessage. rewrite HK. reflexivity.
Qed.

Lemma sendChatMessage_transport_failure (e : js_error) :
  key_missing K = false ->
  fetch the_request = inl e ->
  call
  = ((ConsoleLog "API isteği gönderiliyor"
      :: Fetch the_request
      :: fst (on_error (ThrowError e)))%list,
     snd (on_error (ThrowError e))).
Proof.
  intros HK Hf. unfold sendChatMessage, call_fetch. fold the_request.
  rewrite HK. cbv zeta. rewrite bind_ret, bind_emit, bind_emit. rewrite Hf.
  cbn [fst snd throw]. rewrite bind_throw. cbn [fst snd]. rewrite try_catch_throw. reflexivity.
Qed.

Lemma sendChatMessage_response (r : response) :
  key_missing K = false ->
  fetch the_request = inr r ->
  call
  = ((ConsoleLog "API isteği gönderiliyor"
      :: Fetch the_request
      :: fst (try_catch (handle_response r) on_error))%list,
     snd (try_catch (handle_response r) on_error)).
Proof.
  intros HK Hf. unfold sendChatMessage, call_fetch. fold the_request.
  rewrite HK. cbv zeta. rewrite bind_ret, bind_emit, bind_emit. rewrite Hf.
  cbn [fst snd ret]. rewrite bind_return. cbn [fst snd app].
  destruct (handle_response r) as [t [a|x]]; cbn [fst snd].
  - reflexivity.
  - rewrite !try_catch_throw. reflexivity.
Qed.

(** *** The claims about [sendChatMessage] *)

(** C1, as amended.  On a 2xx response whose body parses to a value other
    than [null]: when the body's [error] property is truthy and is not the
    string "null", the call raises a [ChatApiError] and returns nothing;
    when that value converts to a string (a string always does, to itself)
    the error's message is that string and its details are the whole body.
    When the property is falsy (absent, [null], the empty string, 0 or
    [false]) or is the string "null", the call returns the parsed body
    unchanged. *)
Theorem embedded_error_on_success (r : response) (data : json) :
  key_missing K = false ->
  fetch the_request = inr r ->
  ok r = true ->
  json_body r = inr data ->
  data <> JNull ->
  let out := snd call in
  let error := prop data "error" in
  (truthy error = true -> error <> Some (JStr "null") ->
     (exists c, out = Throw (ThrowChatApiError c))
     /\ (forall msg, render error = Some msg -> out = raises msg (BodyDetails data)))
  /\ (forall s, error = Some (JStr s) -> render error = Some s)
  /\ (truthy error = false \/ error = Some (JStr "null") -> out = Return data).
Proof.
  intros HK Hf Hok Hbody Hnn out error. subst out.
  rewrite (sendChatMessage_response _ HK Hf). cbn [snd].
  rewrite (handle_response_ok r data Hok Hbody Hnn). fold error.
  split; [|split].
  - intros Ht Hn. rewrite Ht. cbn [andb].
    assert (Hs : negb (strict_eq_str error "null") = true).
    { destruct error as [[| | |s| |]|]; try reflexivity.
      simpl. destruct (String.eqb_spec s "null") as [->|]; [contradiction|reflexivity]. }
    rewrite Hs. unfold raised. split.
    + destruct (render error); eexists; reflexivity.
    + intros msg ->. reflexivity.
  - intros s ->. reflexivity.
  - intros [Hf'|Hs].
    + rewrite Hf'. reflexivity.
    + rewrite Hs. reflexivity.
Qed.

(** C2, as amended.  On a non-2xx response the call raises a [ChatApiError]
    and returns nothing.  When the body parses to a value other than [null]
    the message is chosen by the ordered policy [policy]: 403 with
    [error === 'No valid api key found.'] or [message === 'Invalid API Key']
    gives the invalid-credential message, any other 403 the access-denied
    one; 400 gives the body's [message] when it is truthy and the generic
    invalid-request message otherwise; 500 the server-error message; any
    other status the body's [message] when truthy, else its [error] when
    truthy, else the status line.  When the chosen value converts to a
    string, as it does whenever the body's [message] and [error] are strings
    or absent, the error carries that string and the details
    [{status, statusText}].  When the body does not parse the message is the
    status line, with the same details. *)
Theorem failed_response_classification (r : response) :
  key_missing K = false ->
  fetch the_request = inr r ->
  ok r = false ->
  let out := snd call in
  let d := StatusDetails (status r) (statusText r) in
  (forall errorData, json_body r = inr errorData -> errorData <> JNull ->
     forall msg, render (policy r errorData) = Some msg -> out = raises msg d)
  /\ (forall errorData,
        string_or_absent (prop errorData "message") = true ->
        string_or_absent (prop errorData "error") = true ->
        exists msg, render (policy r errorData) = Some msg)
  /\ (forall e, json_body r = inl e -> out = raises (status_line r) d)
  /\ (exists c, out = Throw (ThrowChatApiError c))
  /\ (forall data, out <> Return data).
Proof.
  intros HK Hf Hok out d. subst out d.
  rewrite (sendChatMessage_response _ HK Hf). cbn [snd].
  destruct (handle_response_failed r Hok) as (v & Hv & Hout). rewrite Hout.
  split; [|split; [|split; [|split]]].
  - intros errorData Hbody Hnn msg Hmsg.
    rewrite (errorMessage_of_policy r errorData Hbody Hnn) in Hv.
    injection Hv as <-. unfold raised. rewrite Hmsg. reflexivity.
  - intros errorData. apply policy_converts.
  - intros e Hbody. rewrite (errorMessage_of_parse_failure r e Hbody) in Hv.
    injection Hv as <-. reflexivity.
  - unfold raised. destruct (render v); eexists; reflexivity.
  - intros data. unfold raised. destruct (render v); discriminate.
Qed.

(** C5.  With no API key (the variable is undefined or empty) every call
    raises the missing-credential [ChatApiError] at once: its log is empty,
    so the transport was never called. *)
Theorem missing_credential_fails_without_network :
  key_missing K = true ->
  let out := call in
  snd out = raises MSG_MISSING_KEY NoDetails
  /\ fetch_calls (fst out) = []
  /\ fst out = [].
Proof.
  intros HK out. subst out.
  rewrite (sendChatMessage_missing_key HK). repeat split.
Qed.

(** C6.  A call that has a key sends exactly one request.  Its body carries
    [message], [mode], [sessionId] and [reset] (with the parameters'
    defaults); it has no [attachments] when the argument is absent or empty,
    and carries the argument itself when it has at least one element. *)
Theorem attachments_sent_only_when_nonempty :
  key_missing K = false ->
  exists req,
    fetch_calls (fst call) = [req]
    /\ Types.message (body req) = message
    /\ Types.mode (body req) = default Types.chat mode
    /\ Types.sessionId (body req) = default "user-session-1" sessionId
    /\ Types.reset (body req) = default false reset
    /\ (attachments = None \/ attachments = Some [] -> Types.attachments (body req) = None)
    /\ (forall l, attachments = Some l -> 1 <= List.length l ->
          Types.attachments (body req) = Some l).
Proof.
  intros HK. exists the_request.
  split.
  - destruct (fetch the_request) as [e|r] eqn:Hf.
    + rewrite (sendChatMessage_transport_failure _ HK Hf).
      cbn [fst fetch_calls]. rewrite on_error_no_fetch. reflexivity.
    + rewrite (sendChatMessage_response _ HK Hf).
      cbn [fst fetch_calls]. rewrite handle_response_no_fetch. reflexivity.
  - repeat split.
    + intros [-> | ->]; reflexivity.
    + intros l -> Hl. cbn. destruct l as [|a l]; [simpl in Hl; lia | reflexivity].
Qed.

(** The catch block of lines 112-124, as the code has it.  Whatever
    escapes [sendChatMessage] is a [ChatApiError].  One raised inside passes
    the catch block unchanged.  A thrown [TypeError] whose message contains
    "fetch" becomes the connectivity error, and every other thrown value
    becomes the fallback error; both keep the thrown value as details. *)
Theorem escaping_errors_are_ChatApiErrors :
  let out := call in
  (forall e, snd out <> Throw (ThrowError e))
  /\ (forall t c, try_catch (t, Throw (ThrowChatApiError c)) on_error
                  = (t, Throw (ThrowChatApiError c)))
  /\ (forall e,
        snd (on_error (ThrowError e))
        = raises (if is_TypeError e && includes "fetch" (err_message e)
                  then MSG_NETWORK else MSG_UNEXPECTED) (CauseDetails e))
  /\ (key_missing K = false ->
      forall e, fetch the_request = inl e ->
        snd out
        = raises (if is_TypeError e && includes "fetch" (err_message e)
                  then MSG_NETWORK else MSG_UNEXPECTED) (CauseDetails e)).
Proof.
  intros out. subst out. repeat split.
  - unfold sendChatMessage. apply guarded_never_throws_Error, on_error_throws_ChatApiError.
  - apply guarded_passes_ChatApiError.
  - apply on_error_Error.
  - intros HK e Hf.
    rewrite (sendChatMessage_transport_failure _ HK Hf). cbn [snd].
    apply on_error_Error.
Qed.

End Call.

(** ** The claims at sample inputs *)

Lemma embedded_error_on_success_witness :
  snd (sendChatMessage (Some "key") (respond 200 "OK" (inr (body_with_error (JStr "quota exceeded"))))
         "hello" None None None None)
  = raises "quota exceeded" (BodyDetails (body_with_error (JStr "quota exceeded")))
  /\ snd (sendChatMessage (Some "key") (respond 200 "OK" (inr (body_with_error JNull)))
            "hello" None None None None)
     = Return (body_with_error JNull).
Proof.
  split.
  - apply (embedded_error_on_success (Some "key")
             (respond 200 "OK" (inr (body_with_error (JStr "quota exceeded"))))
             "hello" None None None None
             {| status := 200; statusText := "OK";
                json_body := inr (body_with_error (JStr "quota exceeded")) |}
             (body_with_error (JStr "quota exceeded"))
             eq_refl eq_refl eq_refl eq_refl);
      [discriminate | reflexivity | discriminate | reflexivity].
  - apply (embedded_error_on_success (Some "key")
             (respond 200 "OK" (inr (body_with_error JNull)))
             "hello" None None None None
             {| status := 200; statusText := "OK";
                json_body := inr (body_with_error JNull) |}
             (body_with_error JNull)
             eq_refl eq_refl eq_refl eq_refl);
      [discriminate | left; reflexivity].
Defined.

(** C1 as stated fails: the empty string is a non-null [error] that is not
    the string "null", yet the body is returned and nothing is raised; and a
    2xx body that is [null], which has no [error] at all, is not returned. *)
Lemma empty_error_is_returned :
  prop (body_with_error (JStr "")) "error" = Some (JStr "")
  /\ JStr "" <> JNull
  /\ JStr "" <> JStr "null"
  /\ snd (sendChatMessage (Some "key") (respond 200 "OK" (inr (body_with_error (JStr ""))))
            "hello" None None None None)
     = Return (body_with_error (JStr ""))
  /\ snd (sendChatMessage (Some "key") (respond 200 "OK" (inr JNull))
            "hello" None None None None)
     = raises MSG_UNEXPECTED
         (CauseDetails {| err_class := TypeError;
                          err_message := "Cannot read properties of null (reading 'id')" |}).
Proof. repeat split; try discriminate; reflexivity. Qed.

(** Where [Error] cannot convert the message: an [error], or a [message],
    that is an object with a property named "toString" makes the constructor
    throw inside the guarded block, and the catch block reports that failure
    with the fallback message.  A number is rendered with the text
    JavaScript gives it. *)
Lemma message_without_text :
  let odd := JObj [("toString", JNum {| is_zero := false; text := "1" |})] in
  let big := JNum {| is_zero := false; text := "1e+21" |} in
  render (Some odd) = None
  /\ snd (sendChatMessage (Some "key") (respond 200 "OK" (inr (body_with_error odd)))
            "hello" None None None None)
     = raises MSG_UNEXPECTED (CauseDetails CANNOT_CONVERT)
  /\ snd (sendChatMessage (Some "key")
            (respond 400 "Bad Request" (inr (JObj [("message", odd)])))
            "hello" None None None None)
     = raises MSG_UNEXPECTED (CauseDetails CANNOT_CONVERT)
  /\ snd (sendChatMessage (Some "key") (respond 200 "OK" (inr (body_with_error big)))
            "hello" None None None None)
     = raises "1e+21" (BodyDetails (body_with_error big)).
Proof. repeat apply conj; reflexivity. Qed.

Lemma failed_response_classification_witness :
  snd (sendChatMessage (Some "key")
         (respond 403 "Forbidden" (inr (JObj [("error", JStr "No valid api key found.")])))
         "hello" None None None None)
  = raises MSG_INVALID_KEY (StatusDetails 403 "Forbidden").
Proof.
  destruct (failed_response_classification (Some "key")
              (respond 403 "Forbidden" (inr (JObj [("error", JStr "No valid api key found.")])))
              "hello" None None None None
              {| status := 403; statusText := "Forbidden";
                 json_body := inr (JObj [("error", JStr "No valid api key found.")]) |}
              eq_refl eq_refl eq_refl) as [H _].
  apply (H _ eq_refl); [discriminate | reflexivity].
Defined.

(** C2 as stated fails: a 400 body whose [message] is present and empty
    gets the generic invalid-request message, not its [message]; and a 403
    body that parses to [null] gets the status line, not the access-denied
    message. *)
Lemma empty_message_is_replaced :
  prop (JObj [("message", JStr "")]) "message" = Some (JStr "")
  /\ snd (sendChatMessage (Some "key")
            (respond 400 "Bad Request" (inr (JObj [("message", JStr "")])))
            "hello" None None None None)
     = raises MSG_INVALID_REQUEST (StatusDetails 400 "Bad Request")
  /\ MSG_INVALID_REQUEST <> ""
  /\ snd (sendChatMessage (Some "key") (respond 403 "Forbidden" (inr JNull))
            "hello" None None None None)
     = raises "API yanıt hatası: 403 Forbidden" (StatusDetails 403 "Forbidden")
  /\ MSG_ACCESS_DENIED <> "API yanıt hatası: 403 Forbidden".
Proof. repeat split; try discriminate; reflexivity. Qed.

Lemma missing_credential_fails_without_network_witness :
  snd (sendChatMessage None (respond 200 "OK" (inr (body_with_error JNull)))
         "hello" None None None None)
  = raises MSG_MISSING_KEY NoDetails
  /\ fetch_calls (fst (sendChatMessage None (respond 200 "OK" (inr (body_with_error JNull)))
                         "hello" None None None None)) = [].
Proof.
  destruct (missing_credential_fails_without_network None
              (respond 200 "OK" (inr (body_with_error JNull)))
              "hello" None None None None eq_refl) as (H1 & H2 & _).
  split; [exact H1 | exact H2].
Defined.

Lemma attachments_sent_only_when_nonempty_witness :
  exists req,
    fetch_calls (fst (sendChatMessage (Some "key") (respond 200 "OK" (inr (body_with_error JNull)))
                        "hello" None None (Some [photo]) None)) = [req]
    /\ Types.attachments (body req) = Some [photo].
Proof.
  destruct (attachments_sent_only_when_nonempty (Some "key")
              (respond 200 "OK" (inr (body_with_error JNull)))
              "hello" None None (Some [photo]) None eq_refl)
    as (req & Hcalls & _ & _ & _ & _ & _ & Hsome).
  exists req. split; [exact Hcalls | apply Hsome; [reflexivity | simpl; lia]].
Defined.

Lemma escaping_errors_are_ChatApiErrors_witness :
  snd (sendChatMessage (Some "key") (offline "Failed to fetch") "hello" None None None None)
  = raises MSG_NETWORK
      (CauseDetails {| err_class := TypeError; err_message := "Failed to fetch" |}).
Proof.
  destruct (escaping_errors_are_ChatApiErrors (Some "key") (offline "Failed to fetch")
              "hello" None None None None) as (_ & _ & _ & H).
  apply (H eq_refl _ eq_refl).
Defined.

(** C7.  The code misses its purpose here: the catch block is to tell
    network errors apart (line 117) and give them the connectivity message,
    but it knows them by the word "fetch" in the message of the [TypeError].
    A transport failure reported as the [TypeError] "Load failed", as Safari
    words it, is re-raised with the fallback message, not the connectivity
    one. *)
Lemma transport_failure_without_fetch_in_message :
  snd (sendChatMessage (Some "key") (offline "Load failed") "hello" None None None None)
  = raises MSG_UNEXPECTED
      (CauseDetails {| err_class := TypeError; err_message := "Load failed" |})
  /\ MSG_UNEXPECTED <> MSG_NETWORK.
Proof. split; [reflexivity | discriminate]. Qed.

End ApiFacts.

(** * Properties of the speech controller *)

Module SpeechFacts.
Import JS Speech Samples.

(** The fields of a state, under the names used throughout. *)
Ltac fields s :=
  destruct s as [lis tr sup rref cbref fin voice tref proc last tm nt ne].

(** ** Logs *)

Lemma dispatched_app (t u : list event) :
  dispatched (t ++ u) = (dispatched t ++ dispatched u)%list.
Proof.
  induction t as [|ev t IH]; [reflexivity|].
  destruct ev as [| | | | | | | | | |? ? [? ?|?]| |]; simpl; rewrite IH; reflexivity.
Qed.

Lemma invocations_app (t u : list event) :
  invocations (t ++ u) = (invocations t ++ invocations u)%list.
Proof.
  induction t as [|ev t IH]; [reflexivity|].
  destruct ev; simpl; rewrite IH; reflexivity.
Qed.

Lemma seq_fst (a b : action) (s : state) :
  fst ((a >> b) s) = fst (b (fst (a s))).
Proof. unfold seq. destruct (a s) as [s1 t1]. cbn [fst snd]. destruct (b s1); reflexivity. Qed.

Lemma seq_snd (a b : action) (s : state) :
  snd ((a >> b) s) = (snd (a s) ++ snd (b (fst (a s))))%list.
Proof. unfold seq. destruct (a s) as [s1 t1]. cbn [fst snd]. destruct (b s1); reflexivity. Qed.

(** ** A call of [startListening] in one piece *)

Lemma startListening_eq (p : platform) (onSpeechEnd : option callback) (s : state) :
  startListening p onSpeechEnd s
  = if negb (isSupported s) then (s, [], Resolved)
    else
      let (hasPermission, probed) := checkMicrophonePermission p in
      if negb hasPermission then (s, (probed ++ [Alert ALERT_MICROPHONE])%list, Resolved)
      else if negb (SpeechRecognition p) then (s, probed, Resolved)
      else
        let (s1, t1) :=
          (cleanup >>
           emit (ConsoleLog "Starting speech recognition") >>
           modify (set_isVoiceModeRef (is_some onSpeechEnd)) >>
           modify (set_onSpeechEndRef onSpeechEnd) >>
           modify (set_finalTranscriptRef "") >>
           modify (set_isProcessingRef false) >>
           modify (set_lastProcessedTextRef "")) s in
        match construct p with
        | Some e => (s1, (probed ++ t1)%list, Rejected e)
        | None =>
            let recognition := next_engine s1 in
            let (s2, t2) :=
              (emit (EngineNew recognition) >>
               modify (set_next_engine (S recognition)) >>
               modify (set_recognitionRef (Some recognition))) s1 in
            let (s3, t3) :=
              match start p with
              | Some e =>
                  (emit (ConsoleError "Error starting recognition") >>
                   modify (set_isListening false) >>
                   modify (set_recognitionRef None) >>
                   modify (set_isProcessingRef false)) s2
              | None => emit (EngineStart recognition) s2
              end in
            (s3, (probed ++ t1 ++ t2 ++ t3)%list, Resolved)
        end.
Proof.
  unfold startListening, startListening_begin, startListening_resume.
  destruct (isSupported s); cbn [negb]; [|reflexivity].
  destruct (checkMicrophonePermission p) as [hasPermission probed]. cbn [fst snd].
  destruct hasPermission; cbn [negb]; [|reflexivity].
  destruct (SpeechRecognition p); cbn [negb]; [|rewrite app_nil_r; reflexivity].
  destruct ((cleanup >> _) s) as [s1 t1].
  destruct (construct p); [reflexivity|].
  destruct ((emit (EngineNew (next_engine s1)) >> _) s1) as [s2 t2].
  destruct (start p).
  - destruct ((emit (ConsoleError "Error starting recognition") >> _) s2); reflexivity.
  - destruct (emit (EngineStart (next_engine s1)) s2); reflexivity.
Qed.

(** A call in one piece is its two halves, one after the other. *)
Lemma startListening_halves (p : platform) (onSpeechEnd : option callback) (s : state) :
  fst (startListening p onSpeechEnd s)
  = if isSupported s
    then (startListening_begin p >> (fun s0 => fst (startListening_resume p onSpeechEnd s0))) s
    else (s, []).
Proof.
  unfold startListening, seq.
  destruct (isSupported s) eqn:E; cbn [negb]; [|reflexivity].
  destruct (startListening_begin p s) as [s0 probed].
  destruct (startListening_resume p onSpeechEnd s0) as [[s1 t] settled]. reflexivity.
Qed.

(** ** The result handler *)

Lemma collect_final (l : list SpeechRecognitionResult) (i f b : string) :
  snd (fst (collect l (i, f, b))) <> f -> existsb isFinal l = true.
Proof.
  revert i f b. induction l as [|x l IH]; intros i f b H.
  - simpl in H. contradiction.
  - simpl in *. destruct (isFinal x); [reflexivity|]. simpl. eapply IH, H.
Qed.

Lemma gate_conditions (event : SpeechRecognitionEvent) (s : state) :
  gate event s = true ->
  has_final event = true
  /\ isVoiceModeRef s = true
  /\ is_some (onSpeechEndRef s) = true
  /\ isProcessingRef s = false
  /\ fullText_after event s <> ""
  /\ fullText_after event s <> lastProcessedTextRef s
  /\ 2 < utf16_length (fullText_after event s).
Proof.
  unfold gate, fullText_after, has_final, nonempty.
  destruct (collect _ _) as [[i f] b] eqn:Hc. intros H.
  repeat (apply andb_prop in H; destruct H as [H ?]).
  repeat split.
  - apply (collect_final _ EmptyString EmptyString (finalTranscriptRef s)).
    rewrite Hc. simpl. intros ->. discriminate.
  - assumption.
  - assumption.
  - destruct (isProcessingRef s); [discriminate|reflexivity].
  - intros E. rewrite E in *. discriminate.
  - intros E. rewrite E, String.eqb_refl in *. discriminate.
  - apply Nat.ltb_lt. assumption.
Qed.

(** What one result event does to the fields the dispatch depends on. *)
Lemma onresult_effect (recognition : engine) (event : SpeechRecognitionEvent) (s : state) :
  let s' := fst (onresult recognition event s) in
  let t := snd (onresult recognition event s) in
  isVoiceModeRef s' = isVoiceModeRef s
  /\ onSpeechEndRef s' = onSpeechEndRef s
  /\ timeoutRef s' = timeoutRef s
  /\ invocations t = []
  /\ if gate event s
     then dispatched t = [fullText_after event s]
          /\ isProcessingRef s' = true
          /\ lastProcessedTextRef s' = fullText_after event s
          /\ timers s' = (timers s ++ [(next_timer s,
                                        DispatchTask (onSpeechEndRef s)
                                          (fullText_after event s))])%list
          /\ next_timer s' = Pos.succ (next_timer s)
          /\ In (EngineStop recognition) t
     else dispatched t = []
          /\ isProcessingRef s' = isProcessingRef s
          /\ lastProcessedTextRef s' = lastProcessedTextRef s
          /\ timers s' = timers s
          /\ next_timer s' = next_timer s.
Proof.
  unfold onresult, gate, fullText_after.
  destruct (collect _ _) as [[i f] b].
  fields s.
  unfold seq, when, modify, emit, setTimeout.
  cbn [fst snd isVoiceModeRef onSpeechEndRef timeoutRef isProcessingRef
       lastProcessedTextRef timers next_timer finalTranscriptRef
       set_finalTranscriptRef set_transcript].
  generalize (trim b) as fullText. intros fullText.
  destruct (nonempty f), voice, (is_some cbref), proc, (nonempty fullText),
    (fullText =? last), (2 <? utf16_length fullText)%nat;
    cbn; repeat split; auto.
Qed.

Lemma onresult_blocked (recognition : engine) (event : SpeechRecognitionEvent) (s : state) :
  isProcessingRef s = true -> gate event s = false.
Proof.
  intros H. destruct (gate event s) eqn:G; [|reflexivity].
  apply gate_conditions in G. destruct G as (_ & _ & _ & G & _). congruence.
Qed.

Lemma run_cons (i : input) (l : list input) (s : state) :
  run (i :: l) s = (step i >> run l) s.
Proof. reflexivity. Qed.

(** While a dispatch is in flight, result events dispatch nothing. *)
Lemma run_results_blocked (l : list (engine * SpeechRecognitionEvent)) (s : state) :
  isProcessingRef s = true ->
  dispatched (snd (run (results_of l) s)) = []
  /\ invocations (snd (run (results_of l) s)) = []
  /\ timers (fst (run (results_of l) s)) = timers s.
Proof.
  revert s. induction l as [|[r ev] l IH]; intros s Hp.
  - repeat split.
  - cbn [results_of map fst snd]. fold (results_of l).
    rewrite run_cons, seq_fst, seq_snd, dispatched_app, invocations_app.
    cbn [step].
    pose proof (onresult_effect r ev s) as H. cbv zeta in H.
    rewrite (onresult_blocked r ev s Hp) in H.
    destruct H as (_ & _ & _ & Hi & Hd & Hp' & _ & Htm & _).
    rewrite Hp in Hp'.
    destruct (IH _ Hp') as (IHd & IHi & IHt).
    rewrite Hd, Hi, IHd, IHi, IHt, Htm. repeat split.
Qed.

(** A run of result events either dispatches nothing, or schedules exactly
    one dispatch timer, which holds the callback of the session. *)
Lemma run_results_shape (l : list (engine * SpeechRecognitionEvent)) (s : state) :
  invocations (snd (run (results_of l) s)) = []
  /\ ((dispatched (snd (run (results_of l) s)) = []
       /\ timers (fst (run (results_of l) s)) = timers s)
      \/ (exists cb text,
            dispatched (snd (run (results_of l) s)) = [text]
            /\ timers (fst (run (results_of l) s))
               = (timers s ++ [(next_timer s, DispatchTask (Some cb) text)])%list)).
Proof.
  revert s. induction l as [|[r ev] l IH]; intros s.
  - split; [reflexivity | left; split; reflexivity].
  - cbn [results_of map fst snd]. fold (results_of l).
    rewrite run_cons, seq_fst, seq_snd, dispatched_app, invocations_app.
    cbn [step].
    pose proof (onresult_effect r ev s) as H. cbv zeta in H.
    destruct H as (_ & Hcb & _ & Hi & H).
    destruct (gate ev s) eqn:G.
    + destruct H as (Hd & Hp & _ & Htm & _ & _).
      destruct (run_results_blocked l _ Hp) as (Bd & Bi & Bt).
      rewrite Hi, Hd, Bd, Bi, Bt, Htm. split; [reflexivity|]. right.
      apply gate_conditions in G. destruct G as (_ & _ & Hsome & _).
      destruct (onSpeechEndRef s) as [cb|]; [|discriminate].
      exists cb, (fullText_after ev s). split; reflexivity.
    + destruct H as (Hd & _ & _ & Htm & Hnt).
      destruct (IH (fst (onresult r ev s))) as (IHi & IHc).
      rewrite Hi, Hd, IHi. split; [reflexivity|]. cbn [app].
      rewrite Htm, Hnt in IHc. exact IHc.
Qed.

Lemma fire_dispatch (p : platform) (id : timer_id) (cb : callback) (text : string) (s : state) :
  find_timer id (timers s) = Some (DispatchTask (Some cb) text) ->
  fire_timer p id s
  = (set_timers (remove_timer id (timers s)) s, [Invoke cb text]).
Proof. intros H. unfold fire_timer. rewrite H. reflexivity. Qed.

Lemma drain_single_dispatch (p : platform) (id : timer_id) (cb : callback) (text : string)
    (s : state) :
  timers s = [(id, DispatchTask (Some cb) text)] ->
  snd (drain p s) = [Invoke cb text].
Proof.
  intros H. unfold drain. rewrite H. cbn [map fst fire_all].
  rewrite seq_snd, (fire_dispatch p id cb text).
  - reflexivity.
  - rewrite H. simpl. rewrite Pos.eqb_refl. reflexivity.
Qed.

Lemma drain_nothing (p : platform) (s : state) : timers s = [] -> drain p s = (s, []).
Proof. intros H. unfold drain. rewrite H. reflexivity. Qed.

Lemma final_event_gate (text : string) (s : state) :
  finalTranscriptRef s = "" ->
  fullText_after (final_event text) s = trim text
  /\ gate (final_event text) s
     = nonempty text && isVoiceModeRef s && is_some (onSpeechEndRef s)
       && negb (isProcessingRef s) && nonempty (trim text)
       && negb (trim text =? lastProcessedTextRef s)
       && (2 <? utf16_length (trim text))%nat.
Proof.
  intros H. unfold fullText_after, gate, final_event.
  cbn [results resultIndex skipn collect isFinal alternative0].
  rewrite H. split; reflexivity.
Qed.

Lemma long_text_nonempty (text : string) :
  2 < utf16_length (trim text) -> nonempty text = true /\ nonempty (trim text) = true.
Proof.
  intros H. split.
  - destruct text; [simpl in H; lia | reflexivity].
  - destruct (trim text); [simpl in H; lia | reflexivity].
Qed.

(** A first finalized event that passes the gate, then any second result
    event, then the timers: one invocation, with the first text. *)
Lemma two_result_events (p : platform) (r1 r2 : engine) (cb : callback) (text : string)
    (event2 : SpeechRecognitionEvent) (s : state) :
  timers s = [] ->
  isVoiceModeRef s = true ->
  onSpeechEndRef s = Some cb ->
  isProcessingRef s = false ->
  finalTranscriptRef s = "" ->
  lastProcessedTextRef s <> trim text ->
  2 < utf16_length (trim text) ->
  invocations (snd ((run [OnResult r1 (final_event text); OnResult r2 event2] >> drain p) s))
  = [(cb, trim text)].
Proof.
  intros Htm Hv Hcb Hp Hfin Hlast Hlen.
  destruct (final_event_gate text s Hfin) as (Hft & Hg).
  destruct (long_text_nonempty text Hlen) as (Hn1 & Hn2).
  rewrite Hn1, Hn2, Hv, Hcb, Hp in Hg. cbn [andb negb is_some] in Hg.
  replace (trim text =? lastProcessedTextRef s) with false in Hg
    by (symmetry; apply String.eqb_neq; congruence).
  replace (2 <? utf16_length (trim text))%nat with true in Hg
    by (symmetry; apply Nat.ltb_lt; exact Hlen).
  cbn [negb andb] in Hg.
  pose proof (onresult_effect r1 (final_event text) s) as H. cbv zeta in H.
  rewrite Hg in H. destruct H as (_ & _ & _ & Hi & _ & Hp1 & _ & Ht1 & _ & _).
  rewrite Htm, Hcb, Hft in Ht1. cbn [app] in Ht1.
  destruct (run_results_blocked [(r2, event2)] _ Hp1) as (_ & Bi & Bt).
  cbn [results_of map fst snd] in Bi, Bt.
  rewrite seq_snd, invocations_app, run_cons, seq_snd, seq_fst, invocations_app.
  cbn [step]. rewrite Hi, Bi. cbn [app].
  rewrite (drain_single_dispatch p (next_timer s) cb (trim text)); [reflexivity|].
  rewrite Bt. exact Ht1.
Qed.

(** ** The bookkeeping of timers is an invariant *)

Lemma In_remove_timer (id : timer_id) (x : timer_id * task) (tm : list (timer_id * task)) :
  In x (remove_timer id tm) <-> In x tm /\ fst x <> id.
Proof.
  unfold remove_timer. rewrite filter_In. cbv beta.
  split; intros [H1 H2]; split; trivial.
  - apply negb_true_iff, Pos.eqb_neq in H2. exact H2.
  - apply negb_true_iff, Pos.eqb_neq. exact H2.
Qed.

Lemma NoDup_map_filter {A B} (f : A -> B) (q : A -> bool) (l : list A) :
  NoDup (map f l) -> NoDup (map f (filter q l)).
Proof.
  induction l as [|a l IH]; intros H; [constructor|].
  inversion H as [|? ? Hn Hd]; subst. simpl.
  destruct (q a); [|apply IH; exact Hd].
  simpl. constructor; [|apply IH; exact Hd].
  intros Hin. apply Hn. apply in_map_iff in Hin. destruct Hin as (x & Hx & Hf).
  apply in_map_iff. exists x. split; [exact Hx|]. apply filter_In in Hf. tauto.
Qed.

Lemma tracked_init : tracked [] None 1%positive.
Proof.
  repeat split; try (intros; contradiction); try discriminate. constructor.
Qed.

Lemma tracked_remove (id : timer_id) tm ref nx :
  tracked tm ref nx -> tracked (remove_timer id tm) ref nx.
Proof.
  intros (H1 & H2 & H3 & H4 & H5). repeat split.
  - intros i t Hi. apply In_remove_timer in Hi. eapply H1, Hi.
  - exact H2.
  - intros i cb Hi. apply In_remove_timer in Hi. eapply H3, Hi.
  - intros i cb text Hi. apply In_remove_timer in Hi. eapply H4, Hi.
  - apply NoDup_map_filter, H5.
Qed.

Lemma cancel_no_restart tm ref nx (id : timer_id) (cb : callback) :
  tracked tm ref nx -> ~ In (id, RestartTask cb) (cancel ref tm).
Proof.
  intros (_ & _ & H3 & _) Hin. destruct ref as [id0|]; simpl in Hin.
  - apply In_remove_timer in Hin. destruct Hin as [Hin Hne].
    apply H3 in Hin. injection Hin as ->. apply Hne. reflexivity.
  - apply H3 in Hin. discriminate.
Qed.

Lemma tracked_cancel tm ref nx : tracked tm ref nx -> tracked (cancel ref tm) None nx.
Proof.
  intros H. pose proof (cancel_no_restart tm ref nx) as Hno.
  assert (Hsub : forall x, In x (cancel ref tm) -> In x tm).
  { intros x. destruct ref; simpl; [rewrite In_remove_timer; tauto | trivial]. }
  destruct H as (H1 & H2 & H3 & H4 & H5). repeat split.
  - intros i t Hi. eapply H1, Hsub, Hi.
  - discriminate.
  - intros i cb Hi. exfalso. eapply Hno; [|exact Hi]. repeat split; assumption.
  - discriminate.
  - destruct ref; simpl; [apply NoDup_map_filter|]; exact H5.
Qed.

Lemma NoDup_fresh tm (nx : timer_id) (t : task) :
  (forall id u, In (id, u) tm -> (id < nx)%positive) ->
  NoDup (map fst tm) -> NoDup (map fst (tm ++ [(nx, t)])).
Proof.
  intros Hlt Hnd. rewrite map_app. simpl.
  apply NoDup_app; [exact Hnd | constructor; [intros [] | constructor] |].
  intros a Ha [<- | []]. apply in_map_iff in Ha. destruct Ha as ([i u] & E & Hin).
  simpl in E. subst i. apply Hlt in Hin. lia.
Qed.

Lemma tracked_add_dispatch tm ref nx cb text :
  tracked tm ref nx ->
  tracked (tm ++ [(nx, DispatchTask cb text)]) ref (Pos.succ nx).
Proof.
  intros (H1 & H2 & H3 & H4 & H5). repeat split.
  - intros i t Hi. apply in_app_or in Hi. destruct Hi as [Hi | [E | []]].
    + apply H1 in Hi. lia.
    + injection E as <- _. lia.
  - intros i E. apply H2 in E. lia.
  - intros i c Hi. apply in_app_or in Hi. destruct Hi as [Hi | [E | []]].
    + eapply H3, Hi.
    + discriminate.
  - intros i c x Hi. apply in_app_or in Hi. destruct Hi as [Hi | [E | []]].
    + eapply H4, Hi.
    + injection E as <- _ _. intros E. apply H2 in E. lia.
  - apply NoDup_fresh; assumption.
Qed.

Lemma tracked_add_restart tm ref nx cb :
  tracked tm ref nx ->
  tracked (cancel ref tm ++ [(nx, RestartTask cb)]) (Some nx) (Pos.succ nx).
Proof.
  intros H. pose proof (cancel_no_restart tm ref nx) as Hno.
  pose proof (tracked_cancel _ _ _ H) as (C1 & _ & _ & _ & C5).
  repeat split.
  - intros i t Hi. apply in_app_or in Hi. destruct Hi as [Hi | [E | []]].
    + apply C1 in Hi. lia.
    + injection E as <- _. lia.
  - intros i E. injection E as <-. lia.
  - intros i c Hi. apply in_app_or in Hi. destruct Hi as [Hi | [E | []]].
    + exfalso. eapply Hno; [exact H | exact Hi].
    + injection E as <- _. reflexivity.
  - intros i c x Hi. apply in_app_or in Hi. destruct Hi as [Hi | [E | []]].
    + apply C1 in Hi. intros E. injection E as <-. lia.
    + discriminate.
  - apply NoDup_fresh; assumption.
Qed.

(** What the operations do to the timers, [timeoutRef] and the voice-mode
    flag. *)
Lemma cleanup_timers (s : state) :
  let s' := fst (cleanup s) in
  timers s' = cancel (timeoutRef s) (timers s)
  /\ timeoutRef s' = None
  /\ next_timer s' = next_timer s
  /\ isVoiceModeRef s' = isVoiceModeRef s.
Proof.
  fields s.
  destruct tref, rref; repeat split.
Qed.

Lemma stopListening_timers (s : state) :
  let s' := fst (stopListening s) in
  timers s' = cancel (timeoutRef s) (timers s)
  /\ timeoutRef s' = None
  /\ next_timer s' = next_timer s
  /\ isVoiceModeRef s' = false.
Proof.
  fields s.
  destruct tref, rref; repeat split.
Qed.

Lemma restartListening_timers (cb : callback) (s : state) :
  let s' := fst (restartListening cb s) in
  timers s' = (cancel (timeoutRef s) (timers s) ++ [(next_timer s, RestartTask cb)])%list
  /\ timeoutRef s' = Some (next_timer s)
  /\ next_timer s' = Pos.succ (next_timer s).
Proof.
  fields s.
  destruct tref; repeat split.
Qed.

Lemma startListening_timers (p : platform) (cb : option callback) (s : state) :
  let s' := fst (fst (startListening p cb s)) in
  if reaches_cleanup p s
  then timers s' = cancel (timeoutRef s) (timers s)
       /\ timeoutRef s' = None
       /\ next_timer s' = next_timer s
  else s' = s.
Proof.
  unfold reaches_cleanup. rewrite startListening_eq.
  destruct (isSupported s); cbn [negb andb]; [|reflexivity].
  destruct (checkMicrophonePermission p) as [b probed]. cbn [fst].
  destruct b; cbn [negb andb]; [|reflexivity].
  destruct (SpeechRecognition p); cbn [negb]; [|reflexivity].
  fields s.
  destruct tref, rref, (construct p), (start p); repeat split.
Qed.

Lemma startListening_tracked (p : platform) (cb : option callback) (s : state) :
  timers_tracked s -> timers_tracked (fst (fst (startListening p cb s))).
Proof.
  intros H. pose proof (startListening_timers p cb s) as E. cbv zeta in E.
  destruct (reaches_cleanup p s).
  - destruct E as (E1 & E2 & E3). unfold timers_tracked. rewrite E1, E2, E3.
    apply tracked_cancel, H.
  - rewrite E. exact H.
Qed.

Lemma startListening_begin_state (p : platform) (s : state) :
  fst (startListening_begin p s) = s.
Proof. unfold startListening_begin. destruct (negb (isSupported s)); reflexivity. Qed.

Lemma startListening_resume_timers (p : platform) (cb : option callback) (s : state) :
  let s' := fst (fst (startListening_resume p cb s)) in
  if resumes_to_cleanup p
  then timers s' = cancel (timeoutRef s) (timers s)
       /\ timeoutRef s' = None
       /\ next_timer s' = next_timer s
  else s' = s.
Proof.
  unfold resumes_to_cleanup, startListening_resume.
  destruct (fst (checkMicrophonePermission p)); cbn [negb andb]; [|reflexivity].
  destruct (SpeechRecognition p); cbn [negb]; [|reflexivity].
  fields s.
  destruct tref, rref, (construct p), (start p); repeat split.
Qed.

Lemma startListening_resume_tracked (p : platform) (cb : option callback) (s : state) :
  timers_tracked s -> timers_tracked (fst (fst (startListening_resume p cb s))).
Proof.
  intros H. pose proof (startListening_resume_timers p cb s) as E. cbv zeta in E.
  destruct (resumes_to_cleanup p).
  - destruct E as (E1 & E2 & E3). unfold timers_tracked. rewrite E1, E2, E3.
    apply tracked_cancel, H.
  - rewrite E. exact H.
Qed.

Lemma fire_timer_begin_tracked (p : platform) (id : timer_id) (s : state) :
  timers_tracked s -> timers_tracked (fst (fire_timer_begin p id s)).
Proof.
  intros H. unfold fire_timer_begin. destruct (find_timer id (timers s)) as [t|]; [|exact H].
  assert (H1 : timers_tracked (set_timers (remove_timer id (timers s)) s)).
  { destruct s; apply (tracked_remove id), H. }
  destruct t as [[cb|] text | cb]; try exact H1.
  destruct (isVoiceModeRef _); [|exact H1].
  rewrite startListening_begin_state. exact H1.
Qed.

Lemma fire_timer_tracked (p : platform) (id : timer_id) (s : state) :
  timers_tracked s -> timers_tracked (fst (fire_timer p id s)).
Proof.
  intros H. unfold fire_timer. destruct (find_timer id (timers s)) as [t|]; [|exact H].
  assert (H1 : timers_tracked (set_timers (remove_timer id (timers s)) s)).
  { destruct s; apply (tracked_remove id), H. }
  destruct t as [[cb|] text | cb]; try exact H1.
  destruct (isVoiceModeRef _); [|exact H1].
  apply startListening_tracked, H1.
Qed.

Lemma step_tracked (i : input) (s : state) :
  timers_tracked s -> timers_tracked (fst (step i s)).
Proof.
  intros H.
  destruct i as [p | p cb | | | cb | r | r ev | r | r e | p id | p | p cb | p id];
    cbn [step].
  - destruct s; unfold mount, when; destruct (SpeechRecognition p); exact H.
  - apply startListening_tracked, H.
  - pose proof (stopListening_timers s) as (E1 & E2 & E3 & _).
    unfold timers_tracked. rewrite E1, E2, E3. apply tracked_cancel, H.
  - destruct s; exact H.
  - pose proof (restartListening_timers cb s) as (E1 & E2 & E3).
    unfold timers_tracked. rewrite E1, E2, E3. apply tracked_add_restart, H.
  - destruct s; exact H.
  - pose proof (onresult_effect r ev s) as E. cbv zeta in E.
    destruct E as (_ & _ & E2 & _ & E). unfold timers_tracked. rewrite E2.
    destruct (gate ev s).
    + destruct E as (_ & _ & _ & E1 & E3 & _). rewrite E1, E3.
      apply tracked_add_dispatch, H.
    + destruct E as (_ & _ & _ & E1 & E3). rewrite E1, E3. exact H.
  - fields s.
    unfold onend, seq, when, modify, emit. cbn.
    destruct (negb voice && nonempty fin); exact H.
  - fields s.
    unfold onerror. destruct (e =? "aborted"); [exact H|].
    destruct (e =? "not-allowed"); exact H.
  - apply fire_timer_tracked, H.
  - rewrite startListening_begin_state. exact H.
  - apply startListening_resume_tracked, H.
  - apply fire_timer_begin_tracked, H.
Qed.

Lemma run_tracked (l : list input) (s : state) :
  timers_tracked s -> timers_tracked (fst (run l s)).
Proof.
  revert s. induction l as [|i l IH]; intros s H; [exact H|].
  rewrite run_cons, seq_fst. apply IH, step_tracked, H.
Qed.

Lemma reachable_tracked (s : state) : reachable s -> timers_tracked s.
Proof. intros [l ->]. apply run_tracked, tracked_init. Qed.

Lemma no_restart_pending (tm : list (timer_id * task)) :
  (forall id cb, ~ In (id, RestartTask cb) tm) ->
  filter (fun p => is_restart (snd p)) tm = [].
Proof.
  induction tm as [|[i t] tm IH]; intros H; [reflexivity|]. simpl.
  destruct t as [cb text | cb]; simpl.
  - apply IH. intros id c Hin. apply (H id c). right. exact Hin.
  - exfalso. apply (H i cb). left. reflexivity.
Qed.

Lemma dispatches_survive_cancel ref tm nx :
  tracked tm ref nx ->
  filter (fun p => negb (is_restart (snd p))) (cancel ref tm)
  = filter (fun p => negb (is_restart (snd p))) tm.
Proof.
  intros (_ & _ & _ & H4 & _). destruct ref as [id0|]; [|reflexivity]. simpl.
  induction tm as [|[i t] tm IH]; [reflexivity|]. simpl.
  assert (IH' := IH (fun id cb text Hin => H4 id cb text (or_intror Hin))).
  destruct (Pos.eqb_spec i id0) as [E|_]; simpl.
  - destruct t as [cb text | cb]; simpl; [|exact IH'].
    exfalso. apply (H4 i cb text); [left; reflexivity | congruence].
  - destruct t as [cb text | cb]; simpl; [f_equal|]; exact IH'.
Qed.

Lemma find_timer_In (tm : list (timer_id * task)) (id : timer_id) (t : task) :
  NoDup (map fst tm) -> In (id, t) tm -> find_timer id tm = Some t.
Proof.
  induction tm as [|[i u] tm IH]; intros Hnd Hin; [contradiction|].
  inversion Hnd as [|? ? Hn Hd]; subst. simpl.
  destruct Hin as [E | Hin].
  - injection E as -> ->. rewrite Pos.eqb_refl. reflexivity.
  - destruct (Pos.eqb_spec i id) as [->|_]; [|apply IH; assumption].
    exfalso. apply Hn. apply in_map_iff. exists (id, t). split; [reflexivity | exact Hin].
Qed.

(** ** The claims about the controller *)

(** C3, as amended.  Whatever result events arrive, in whatever state,
    they hand at most one text to a dispatch timer and invoke nothing
    themselves; when no timer was pending before them, then once every timer
    has fired the utterance callback has run at most once, with the text
    that was handed over, so no text is delivered twice.  A result event
    hands a text to the dispatch timer exactly when the gate holds, and the
    gate holds only if the event carries a finalized segment, voice mode is
    on, the trimmed accumulated final text is non-empty, longer than 2 code
    units, different from the last dispatched text, and no dispatch is in
    flight.  In particular, in a voice-mode session with no timer pending,
    an empty final buffer and no dispatch in flight, a finalized event whose
    trimmed text is longer than 2 code units and is not the last dispatched
    text, followed by a second result event (the same text again, or any
    other), yields exactly one invocation, with the first text. *)
Theorem utterance_dispatched_once
    (l : list (engine * SpeechRecognitionEvent)) (p : platform) (s : state) :
  let t := snd (run (results_of l) s) in
  List.length (dispatched t) <= 1
  /\ invocations t = []
  /\ (timers s = [] ->
      let fired := snd (drain p (fst (run (results_of l) s))) in
      List.length (invocations fired) <= 1
      /\ NoDup (map snd (invocations fired))
      /\ map snd (invocations fired) = dispatched t)
  /\ (forall recognition event s0,
        dispatched (snd (onresult recognition event s0))
        = if gate event s0 then [fullText_after event s0] else [])
  /\ (forall event s0,
        gate event s0 = true ->
        has_final event = true
        /\ isVoiceModeRef s0 = true
        /\ is_some (onSpeechEndRef s0) = true
        /\ isProcessingRef s0 = false
        /\ fullText_after event s0 <> ""
        /\ fullText_after event s0 <> lastProcessedTextRef s0
        /\ 2 < utf16_length (fullText_after event s0))
  /\ (forall r1 r2 cb text event2,
        timers s = [] ->
        isVoiceModeRef s = true ->
        onSpeechEndRef s = Some cb ->
        isProcessingRef s = false ->
        finalTranscriptRef s = "" ->
        lastProcessedTextRef s <> trim text ->
        2 < utf16_length (trim text) ->
        invocations
          (snd ((run [OnResult r1 (final_event text); OnResult r2 event2] >> drain p) s))
        = [(cb, trim text)]).
Proof.
  intros t.
  destruct (run_results_shape l s) as (Hi & Hshape). fold t in Hi, Hshape.
  repeat apply conj.
  - destruct Hshape as [(Hd & _) | (cb & text & Hd & _)]; rewrite Hd; simpl; lia.
  - exact Hi.
  - intros Htm fired. subst fired.
    destruct Hshape as [(Hd & Ht) | (cb & text & Hd & Ht)]; rewrite Htm in Ht.
    + rewrite (drain_nothing p _ Ht), Hd. cbn.
      repeat apply conj; [lia | constructor | reflexivity].
    + cbn [app] in Ht. rewrite (drain_single_dispatch p _ cb text _ Ht), Hd. cbn.
      repeat apply conj; [lia | constructor; [intros [] | constructor] | reflexivity].
  - intros recognition event s0.
    pose proof (onresult_effect recognition event s0) as H. cbv zeta in H.
    destruct H as (_ & _ & _ & _ & H).
    destruct (gate event s0); destruct H as (H & _); exact H.
  - intros event s0. apply gate_conditions.
  - intros r1 r2 cb text event2 Htm Hv Hcb Hp Hfin Hlast Hlen.
    apply two_result_events; assumption.
Qed.

Lemma utterance_dispatched_once_witness :
  invocations
    (snd ((run [OnResult 0 (final_event "merhaba"); OnResult 0 (final_event "merhaba")]
           >> drain browser) voice_session))
  = [(7, "merhaba")].
Proof.
  destruct (utterance_dispatched_once
              [(0, final_event "merhaba"); (0, final_event "merhaba")]
              browser voice_session) as (_ & _ & _ & _ & _ & H).
  apply (H 0 0 7 "merhaba" (final_event "merhaba"));
    try reflexivity; [discriminate | vm_compute; lia].
Defined.

(** C3 as stated fails: two finalized result events that carry the same
    trimmed text need not yield an invocation, and the one they yield need
    not carry that text.  In a fresh voice-mode session the text "a" twice
    accumulates to "aa", never longer than 2, and nothing is invoked; the
    text "ab" twice is dispatched once, as "abab". *)
Lemma same_text_twice_without_its_dispatch :
  isVoiceModeRef voice_session = true
  /\ onSpeechEndRef voice_session = Some 7
  /\ timers voice_session = []
  /\ trim "a" = "a"
  /\ invocations
       (snd ((run [OnResult 0 (final_event "a"); OnResult 0 (final_event "a")]
              >> drain browser) voice_session))
     = []
  /\ trim "ab" = "ab"
  /\ invocations
       (snd ((run [OnResult 0 (final_event "ab"); OnResult 0 (final_event "ab")]
              >> drain browser) voice_session))
     = [(7, "abab")].
Proof. repeat apply conj; vm_compute; reflexivity. Qed.

(** The length tested is the number of UTF-16 code units, and the trimming
    that of [String.prototype.trim]: the two letters of "şu", here followed
    by a no-break space (U+00A0), are not dispatched; the three of "şey",
    here between a no-break space and a line separator (U+2028), are. *)
Lemma length_counts_code_units :
  String.length "şu" = 3
  /\ utf16_length "şu" = 2
  /\ trim "şu " = "şu"
  /\ dispatched (snd (onresult 0 (final_event "şu ") voice_session)) = []
  /\ trim " şey " = "şey"
  /\ dispatched (snd (onresult 0 (final_event " şey ") voice_session)) = ["şey"].
Proof. repeat apply conj; vm_compute; reflexivity. Qed.

(** A pending dispatch timer outlives the cancelling of [cleanup]. *)
Lemma dispatch_survives_cancel (id : timer_id) (cb : option callback) (text : string)
    (s : state) :
  timers_tracked s ->
  In (id, DispatchTask cb text) (timers s) ->
  find_timer id (cancel (timeoutRef s) (timers s)) = Some (DispatchTask cb text)
  /\ find_timer id (timers s) = Some (DispatchTask cb text).
Proof.
  intros Hr Hin.
  pose proof (tracked_cancel _ _ _ Hr) as (_ & _ & _ & _ & Hnd).
  destruct Hr as (_ & _ & _ & H4 & Hnd0).
  split; [|apply find_timer_In; assumption].
  apply find_timer_In; [exact Hnd|].
  destruct (timeoutRef s) as [id0|] eqn:Eref; simpl; [|exact Hin].
  apply In_remove_timer. split; [exact Hin|]. simpl. intros ->.
  apply (H4 id0 cb text Hin). reflexivity.
Qed.

Lemma startListening_dispatches (p : platform) (cb : option callback) (s : state) :
  timers_tracked s ->
  pending_dispatches (fst (fst (startListening p cb s))) = pending_dispatches s
  /\ pending_dispatches (fst (fst (startListening_resume p cb s))) = pending_dispatches s.
Proof.
  intros Hr. split.
  - pose proof (startListening_timers p cb s) as S. cbv zeta in S.
    destruct (reaches_cleanup p s); [|rewrite S; reflexivity].
    destruct S as (S1 & _). unfold pending_dispatches. rewrite S1.
    eapply dispatches_survive_cancel, Hr.
  - pose proof (startListening_resume_timers p cb s) as S. cbv zeta in S.
    destruct (resumes_to_cleanup p); [|rewrite S; reflexivity].
    destruct S as (S1 & _). unfold pending_dispatches. rewrite S1.
    eapply dispatches_survive_cancel, Hr.
Qed.

(** For a dispatch timer the two ways of firing are one. *)
Lemma fire_timer_begin_dispatch (p : platform) (id : timer_id) (cb : option callback)
    (text : string) (s : state) :
  find_timer id (timers s) = Some (DispatchTask cb text) ->
  fire_timer_begin p id s = fire_timer p id s.
Proof. intros H. unfold fire_timer_begin, fire_timer. rewrite H. reflexivity. Qed.

(** A restart timer fires in one piece as it does in two halves. *)
Lemma fire_timer_halves (p : platform) (id : timer_id) (onSpeechEnd : callback) (s : state) :
  find_timer id (timers s) = Some (RestartTask onSpeechEnd) ->
  fire_timer p id s
  = if isVoiceModeRef s && isSupported s
    then (fire_timer_begin p id >>
          (fun s0 => fst (startListening_resume p (Some onSpeechEnd) s0))) s
    else fire_timer_begin p id s.
Proof.
  intros H. unfold seq, fire_timer, fire_timer_begin. rewrite H.
  fields s. cbn [isVoiceModeRef isSupported set_timers timers].
  destruct voice; cbn [andb]; [|reflexivity].
  rewrite startListening_halves. unfold seq, startListening_begin.
  cbn [isSupported negb].
  destruct sup; reflexivity.
Qed.

(** C4, as amended.  In every state the hook can reach, whatever ran
    during the awaits of earlier calls, the restart timer is cancelled by
    [stopListening] and by a [startListening] that gets past its checks, be
    it in one piece or on resuming: no restart timer is pending afterwards,
    and after [stopListening] no timer that fires does anything but invoke a
    callback.  The dispatch timer is not cancelled: [stopListening] and
    [startListening] leave every pending dispatch timer in place, and when
    it fires it still invokes the callback it captured, with the text it
    captured. *)
Theorem restart_timer_is_cancelled (s : state) :
  reachable s ->
  pending_restarts (fst (stopListening s)) = []
  /\ (forall p cb, reaches_cleanup p s = true ->
        pending_restarts (fst (fst (startListening p cb s))) = [])
  /\ (forall p cb, resumes_to_cleanup p = true ->
        pending_restarts (fst (fst (startListening_resume p cb s))) = [])
  /\ (forall p id ev,
        In ev (snd (fire_timer p id (fst (stopListening s))))
        \/ In ev (snd (fire_timer_begin p id (fst (stopListening s)))) ->
        exists cb text, ev = Invoke cb text)
  /\ pending_dispatches (fst (stopListening s)) = pending_dispatches s
  /\ (forall p cb,
        pending_dispatches (fst (fst (startListening p cb s))) = pending_dispatches s
        /\ pending_dispatches (fst (fst (startListening_resume p cb s)))
           = pending_dispatches s)
  /\ (forall p id cb text, In (id, DispatchTask (Some cb) text) (timers s) ->
        snd (fire_timer p id (fst (stopListening s))) = [Invoke cb text]
        /\ forall p' cb',
             snd (fire_timer p id (fst (fst (startListening p' cb' s))))
             = [Invoke cb text]
             /\ snd (fire_timer p id (fst (fst (startListening_resume p' cb' s))))
                = [Invoke cb text]).
Proof.
  intros Hr. apply reachable_tracked in Hr.
  pose proof (stopListening_timers s) as E. cbv zeta in E.
  destruct E as (E1 & E2 & E3 & E4).
  assert (Hquiet : forall p id ev,
            In ev (snd (fire_timer p id (fst (stopListening s)))) ->
            exists cb text, ev = Invoke cb text).
  { intros p id ev. unfold fire_timer.
    destruct (find_timer id (timers (fst (stopListening s)))) as [[[cb|] text | cb]|];
      cbn [snd].
    + intros [<- | []]. exists cb, text. reflexivity.
    + intros [].
    + replace (isVoiceModeRef (set_timers (remove_timer id (timers (fst (stopListening s))))
                                 (fst (stopListening s))))
        with false by (symmetry; exact E4).
      intros [].
    + intros []. }
  repeat apply conj.
  - unfold pending_restarts. rewrite E1. apply no_restart_pending.
    intros id cb. eapply cancel_no_restart, Hr.
  - intros p cb Hc. pose proof (startListening_timers p cb s) as S. cbv zeta in S.
    rewrite Hc in S. destruct S as (S1 & _).
    unfold pending_restarts. rewrite S1. apply no_restart_pending.
    intros id c. eapply cancel_no_restart, Hr.
  - intros p cb Hc. pose proof (startListening_resume_timers p cb s) as S. cbv zeta in S.
    rewrite Hc in S. destruct S as (S1 & _).
    unfold pending_restarts. rewrite S1. apply no_restart_pending.
    intros id c. eapply cancel_no_restart, Hr.
  - intros p id ev [H | H]; [exact (Hquiet p id ev H)|].
    destruct (find_timer id (timers (fst (stopListening s)))) as [[c text | c]|] eqn:Hf.
    + rewrite (fire_timer_begin_dispatch p id c text _ Hf) in H. exact (Hquiet p id ev H).
    + unfold fire_timer_begin in H. rewrite Hf in H.
      replace (isVoiceModeRef (set_timers (remove_timer id (timers (fst (stopListening s))))
                                 (fst (stopListening s))))
        with false in H by (symmetry; exact E4).
      destruct H.
    + unfold fire_timer_begin in H. rewrite Hf in H. destruct H.
  - unfold pending_dispatches. rewrite E1. eapply dispatches_survive_cancel, Hr.
  - intros p cb. apply startListening_dispatches, Hr.
  - intros p id cb text Hin.
    destruct (dispatch_survives_cancel id (Some cb) text s Hr Hin) as (Hc & Hk).
    split.
    + rewrite (fire_dispatch p id cb text); [reflexivity|]. rewrite E1. exact Hc.
    + intros p' cb'. split.
      * rewrite (fire_dispatch p id cb text); [reflexivity|].
        pose proof (startListening_timers p' cb' s) as S. cbv zeta in S.
        destruct (reaches_cleanup p' s); [|rewrite S; exact Hk].
        destruct S as (S1 & _). rewrite S1. exact Hc.
      * rewrite (fire_dispatch p id cb text); [reflexivity|].
        pose proof (startListening_resume_timers p' cb' s) as S. cbv zeta in S.
        destruct (resumes_to_cleanup p'); [|rewrite S; exact Hk].
        destruct S as (S1 & _). rewrite S1. exact Hc.
Qed.

Lemma restart_timer_is_cancelled_witness :
  pending_restarts awaiting_restart = [(1%positive, RestartTask 7)]
  /\ pending_restarts (fst (stopListening awaiting_restart)) = [].
Proof.
  split; [vm_compute; reflexivity|].
  assert (R : reachable awaiting_restart).
  { exists [Mount browser; CallStart browser (Some 7); OnStart 0; CallRestart 7].
    vm_compute. reflexivity. }
  destruct (restart_timer_is_cancelled awaiting_restart R) as (H & _).
  exact H.
Defined.

(** C4 as stated fails for the dispatch timer: its handle is not kept, so
    nothing can cancel it.  After a dispatch, [stopListening] (or a fresh
    [startListening]) leaves the timer pending, and when it fires the
    callback is invoked although voice mode is off and the callback reference
    cleared. *)
Lemma dispatch_timer_fires_after_stop :
  timers dispatching = [(1%positive, DispatchTask (Some 7) "merhaba")]
  /\ timeoutRef dispatching = None
  /\ isVoiceModeRef (fst (stopListening dispatching)) = false
  /\ onSpeechEndRef (fst (stopListening dispatching)) = None
  /\ timers (fst (stopListening dispatching))
     = [(1%positive, DispatchTask (Some 7) "merhaba")]
  /\ snd (fire_timer browser 1%positive (fst (stopListening dispatching)))
     = [Invoke 7 "merhaba"]
  /\ snd (fire_timer browser 1%positive
            (fst (fst (startListening browser None dispatching))))
     = [Invoke 7 "merhaba"].
Proof. repeat apply conj; vm_compute; reflexivity. Qed.

(** What the cancelling does not reach: a restart whose timer has fired and
    whose call of [startListening] is awaiting the permission check when
    [stopListening] runs.  No timer is pending after the stop and voice mode
    is off; the call then resumes, turns voice mode on again and starts an
    engine. *)
Lemma restart_in_flight_outlives_stop :
  let before := [CallRestart 7; TimerBegins browser 1%positive; CallStop] in
  let after := (before ++ [StartResumes browser (Some 7)])%list in
  snd (run [CallRestart 7; TimerBegins browser 1%positive] voice_session)
  = [ConsoleLog "Restarting listening for voice mode";
     SetTimeout 1%positive 1500 (RestartTask 7);
     PermissionsQuery; GetUserMedia; TrackStop]
  /\ timers (fst (run before voice_session)) = []
  /\ isVoiceModeRef (fst (run before voice_session)) = false
  /\ isVoiceModeRef (fst (run after voice_session)) = true
  /\ recognitionRef (fst (run after voice_session)) = Some 1
  /\ In (EngineStart 1) (snd (run after voice_session)).
Proof. repeat apply conj; vm_compute; auto 20. Qed.

(** C8, as amended.  Whenever [startListening] gets as far as creating
    the engine and the constructor returns, a failure of [recognition.start()]
    is caught and logged: the promise resolves, the listening flag is false,
    the engine reference is cleared and the in-flight flag is cleared.  More
    generally the promise resolves whenever the constructor does not throw. *)
Theorem start_failure_is_contained
    (p : platform) (onSpeechEnd : option callback) (s : state) (e : js_error) :
  reaches_cleanup p s = true ->
  construct p = None ->
  start p = Some e ->
  let s' := fst (fst (startListening p onSpeechEnd s)) in
  let t := snd (fst (startListening p onSpeechEnd s)) in
  snd (startListening p onSpeechEnd s) = Resolved
  /\ In (ConsoleError "Error starting recognition") t
  /\ isListening s' = false
  /\ recognitionRef s' = None
  /\ isProcessingRef s' = false
  /\ (forall p0 cb0 s0, construct p0 = None -> snd (startListening p0 cb0 s0) = Resolved).
Proof.
  intros Hr Hc Hs.
  unfold reaches_cleanup in Hr.
  apply andb_prop in Hr. destruct Hr as [Hr H3].
  apply andb_prop in Hr. destruct Hr as [H1 H2].
  assert (Hgen : forall p0 cb0 s0, construct p0 = None ->
                   snd (startListening p0 cb0 s0) = Resolved).
  { intros p0 cb0 s0 Hc0. rewrite startListening_eq.
    destruct (negb (isSupported s0)); [reflexivity|].
    destruct (checkMicrophonePermission p0) as [b probed].
    destruct (negb b); [reflexivity|].
    destruct (negb (SpeechRecognition p0)); [reflexivity|].
    destruct (seq cleanup _ s0) as [s1 t1]. rewrite Hc0.
    unfold seq, emit, modify. cbn [fst snd].
    destruct (start p0); reflexivity. }
  rewrite startListening_eq. rewrite H1. cbn [negb].
  destruct (checkMicrophonePermission p) as [b probed]. cbn [fst] in H2. subst b.
  cbn [negb]. rewrite H3. cbn [negb].
  destruct (seq cleanup _ s) as [s1 t1]. rewrite Hc, Hs.
  unfold seq, emit, modify. cbn [fst snd].
  repeat apply conj; try reflexivity.
  - apply in_or_app. right. apply in_or_app. right. simpl. auto.
  - exact Hgen.
Qed.

Lemma start_failure_is_contained_witness :
  snd (startListening browser_start_throws (Some 7) mounted) = Resolved
  /\ isListening (fst (fst (startListening browser_start_throws (Some 7) mounted))) = false
  /\ recognitionRef (fst (fst (startListening browser_start_throws (Some 7) mounted))) = None.
Proof.
  destruct (start_failure_is_contained browser_start_throws (Some 7) mounted failure
              eq_refl eq_refl eq_refl) as (H1 & _ & H2 & H3 & _).
  repeat split; assumption.
Defined.

(** C8 as stated fails for the constructor: when [new SpeechRecognition()]
    throws, nothing is logged as an error and the promise returned by
    [startListening] is rejected with the thrown value. *)
Lemma constructor_failure_propagates :
  startListening browser_construct_throws (Some 7) mounted
  = (set_onSpeechEndRef (Some 7) (set_isVoiceModeRef true mounted),
     [PermissionsQuery; GetUserMedia; TrackStop;
      ConsoleLog "Starting speech recognition"],
     Rejected failure).
Proof. reflexivity. Qed.

(** C9.  In every state [resetTranscript] empties the displayed
    transcript, the final buffer and the last dispatched text and clears the
    in-flight flag; it only writes a log line, and every other field (the
    engine reference, the listening and voice-mode flags, the callback, the
    restart timer's handle, the pending timers) is as before. *)
Theorem resetTranscript_frame (s : state) :
  let s' := fst (resetTranscript s) in
  transcript s' = ""
  /\ finalTranscriptRef s' = ""
  /\ lastProcessedTextRef s' = ""
  /\ isProcessingRef s' = false
  /\ recognitionRef s' = recognitionRef s
  /\ isListening s' = isListening s
  /\ isSupported s' = isSupported s
  /\ isVoiceModeRef s' = isVoiceModeRef s
  /\ onSpeechEndRef s' = onSpeechEndRef s
  /\ timeoutRef s' = timeoutRef s
  /\ timers s' = timers s
  /\ next_timer s' = next_timer s
  /\ next_engine s' = next_engine s
  /\ snd (resetTranscript s) = [ConsoleLog "Resetting transcript"].
Proof. repeat split. Qed.

(** C10.  When [isSupported] is false, [startListening] returns at once:
    the promise resolves, the log is empty (no permission query, no
    microphone probe, no alert, no engine) and the state is the one it was
    called in.  On a platform without the engine the mount effect leaves
    [isSupported] false. *)
Theorem startListening_unsupported
    (p : platform) (onSpeechEnd : option callback) (s : state) :
  isSupported s = false ->
  startListening p onSpeechEnd s = (s, [], Resolved)
  /\ (forall p0, SpeechRecognition p0 = false -> mount p0 init = (init, [])).
Proof.
  intros H. split.
  - rewrite startListening_eq. rewrite H. reflexivity.
  - intros p0 H0. unfold mount, when. rewrite H0. reflexivity.
Qed.

Lemma startListening_unsupported_witness :
  startListening browser (Some 7) init = (init, [], Resolved).
Proof.
  apply (startListening_unsupported browser (Some 7) init eq_refl).
Defined.

End SpeechFacts.

(** * Further properties of [sendChatMessage] *)

Module ApiExtras.
Import JS Api Samples Observations.

Lemma strict_eq_str_true (v : value) (lit : string) :
  strict_eq_str v lit = true -> v = Some (JStr lit).
Proof.
  destruct v as [[| | |s| |]|]; simpl; try discriminate.
  intros H. apply String.eqb_eq in H. subst s. reflexivity.
Qed.

Lemma errorMessage_of_403 (r : response) :
  status r = 403%Z ->
  exists m, snd (errorMessage_of r) = Return (Some (JStr m))
    /\ (m = MSG_INVALID_KEY \/ m = MSG_ACCESS_DENIED \/ m = status_line r).
Proof.
  intros H. unfold errorMessage_of, response_json. rewrite H.
  change (403 =? 403)%Z with true. cbv iota.
  destruct (json_body r) as [e|errorData].
  - eexists. split; [reflexivity | right; right; reflexivity].
  - rewrite ApiFacts.bind_ret, ApiFacts.bind_emit.
    destruct errorData; try (eexists; split; [reflexivity | auto]).
    cbn [get prop]. rewrite ApiFacts.bind_ret.
    destruct (strict_eq_str (lookup "error" l) "No valid api key found.").
    + eexists. split; [reflexivity | auto].
    + rewrite ApiFacts.bind_ret.
      destruct (strict_eq_str (lookup "message" l) "Invalid API Key");
        eexists; (split; [reflexivity | auto]).
Qed.

Lemma errorMessage_of_500 (r : response) (errorData : json) :
  status r = 500%Z ->
  json_body r = inr errorData ->
  snd (errorMessage_of r) = Return (Some (JStr MSG_SERVER_ERROR)).
Proof.
  intros H Hbody. unfold errorMessage_of, response_json. rewrite H, Hbody.
  rewrite ApiFacts.bind_ret, ApiFacts.bind_emit. reflexivity.
Qed.

Lemma handle_response_unparsed (r : response) (e : js_error) :
  ok r = true ->
  json_body r = inl e ->
  snd (try_catch (handle_response r) on_error) = snd (on_error (ThrowError e)).
Proof.
  intros Hok Hbody. unfold handle_response, response_json.
  rewrite ApiFacts.bind_emit, Hok, Hbody. cbn [negb].
  rewrite ApiFacts.bind_throw_l. cbn [fst snd throw].
  rewrite ApiFacts.try_catch_throw. reflexivity.
Qed.

Lemma handle_response_null (r : response) :
  ok r = true ->
  json_body r = inr JNull ->
  snd (try_catch (handle_response r) on_error)
  = raises MSG_UNEXPECTED
      (CauseDetails {| err_class := TypeError;
                       err_message := "Cannot read properties of null (reading 'id')" |}).
Proof.
  intros Hok Hbody. unfold handle_response, response_json.
  rewrite ApiFacts.bind_emit, Hok, Hbody. cbn [negb].
  rewrite ApiFacts.bind_ret. reflexivity.
Qed.

Lemma on_error_never_returns (x : thrown) (data : json) :
  snd (on_error x) <> Return data.
Proof.
  destruct (ApiFacts.on_error_throws_ChatApiError x) as [c Hc]. rewrite Hc. discriminate.
Qed.

Section Call.

Variable K : option string.
Variable fetch : request -> js_error + response.
Variable message : string.
Variable mode : option Types.Mode.
Variable sessionId : option string.
Variable attachments : option (list Types.ChatAttachment).
Variable reset : option bool.

Local Notation "'call'" :=
  (sendChatMessage K fetch message mode sessionId attachments reset).
Local Notation "'the_request'" :=
  (request_of K message mode sessionId attachments reset).

Lemma fetch_calls_sent :
  key_missing K = false -> fetch_calls (fst call) = [the_request].
Proof.
  intros HK. destruct (fetch the_request) as [e|r] eqn:Hf.
  - rewrite (ApiFacts.sendChatMessage_transport_failure _ _ _ _ _ _ _ _ HK Hf).
    cbn [fst fetch_calls]. rewrite ApiFacts.on_error_no_fetch. reflexivity.
  - rewrite (ApiFacts.sendChatMessage_response _ _ _ _ _ _ _ _ HK Hf).
    cbn [fst fetch_calls]. rewrite ApiFacts.handle_response_no_fetch. reflexivity.
Qed.

(** Every request a call hands to the transport is the one POST to
    [API_URL], with the JSON content type, the JSON accept header and the
    key as bearer token. *)
Theorem request_is_authorized_post (req : request) :
  In req (fetch_calls (fst call)) ->
  key_missing K = false
  /\ req = the_request
  /\ url req = API_URL
  /\ method req = "POST"
  /\ header "Content-Type" (headers req) = Some "application/json"
  /\ header "Authorization" (headers req) = Some ("Bearer " ++ key_of K)
  /\ header "Accept" (headers req) = Some "application/json".
Proof.
  intros Hin. destruct (key_missing K) eqn:HK.
  - rewrite (ApiFacts.sendChatMessage_missing_key _ fetch message mode sessionId attachments reset HK)
      in Hin.
    destruct Hin.
  - rewrite (fetch_calls_sent HK) in Hin. destruct Hin as [<- | []].
    destruct K as [k|]; [|discriminate].
    repeat apply conj; reflexivity.
Qed.

(** A call returns a body only when the transport answered its request
    with a 2xx response whose body parsed to that very value, not [null],
    and whose [error] is falsy or the string "null". *)
Theorem returned_body_comes_from_success (data : json) :
  snd call = Return data ->
  key_missing K = false
  /\ exists r,
       fetch the_request = inr r
       /\ ok r = true
       /\ json_body r = inr data
       /\ data <> JNull
       /\ (truthy (prop data "error") = false \/ prop data "error" = Some (JStr "null")).
Proof.
  intros H. destruct (key_missing K) eqn:HK.
  { rewrite (ApiFacts.sendChatMessage_missing_key _ fetch message mode sessionId attachments reset HK)
      in H.
    discriminate. }
  split; [reflexivity|].
  destruct (fetch the_request) as [e|r] eqn:Hf.
  { rewrite (ApiFacts.sendChatMessage_transport_failure _ _ _ _ _ _ _ _ HK Hf) in H.
    cbn [snd] in H. exfalso. exact (on_error_never_returns _ _ H). }
  rewrite (ApiFacts.sendChatMessage_response _ _ _ _ _ _ _ _ HK Hf) in H. cbn [snd] in H.
  exists r. split; [reflexivity|].
  destruct (ok r) eqn:Hok.
  2:{ destruct (ApiFacts.handle_response_failed r Hok) as (v & _ & Hv).
      rewrite Hv in H. exfalso. exact (ApiFacts.raised_never_returns _ _ _ H). }
  split; [reflexivity|].
  destruct (json_body r) as [e|body] eqn:Hbody.
  { rewrite (handle_response_unparsed r e Hok Hbody) in H.
    exfalso. exact (on_error_never_returns _ _ H). }
  assert (Hnn : body <> JNull).
  { intros ->. rewrite (handle_response_null r Hok Hbody) in H. discriminate. }
  rewrite (ApiFacts.handle_response_ok r body Hok Hbody Hnn) in H.
  destruct (truthy (prop body "error")) eqn:Ht; cbn [andb] in H.
  - destruct (strict_eq_str (prop body "error") "null") eqn:Hs; cbn [negb] in H;
      [|exfalso; exact (ApiFacts.raised_never_returns _ _ _ H)].
    injection H as <-. repeat split; trivial.
    right. apply strict_eq_str_true, Hs.
  - injection H as <-. repeat split; trivial. left. exact Ht.
Qed.

(** A 2xx response without a usable body ends in an error, never in a
    returned value: a body that does not parse is reported through the catch
    block with the parse failure as details, and a body that is [null] as the
    fallback error. *)
Theorem success_without_usable_body (r : response) :
  key_missing K = false ->
  fetch the_request = inr r ->
  ok r = true ->
  (forall e, json_body r = inl e ->
     snd call
     = raises (if is_TypeError e && includes "fetch" (err_message e)
               then MSG_NETWORK else MSG_UNEXPECTED) (CauseDetails e))
  /\ (json_body r = inr JNull ->
      snd call
      = raises MSG_UNEXPECTED
          (CauseDetails {| err_class := TypeError;
                           err_message := "Cannot read properties of null (reading 'id')" |})).
Proof.
  intros HK Hf Hok.
  rewrite (ApiFacts.sendChatMessage_response _ _ _ _ _ _ _ _ HK Hf). cbn [snd]. split.
  - intros e Hbody. rewrite (handle_response_unparsed r e Hok Hbody).
    apply ApiFacts.on_error_Error.
  - intros Hbody. apply (handle_response_null r Hok Hbody).
Qed.

(** The text of a 403 or 500 body never reaches the caller: a 403 is
    reported with the invalid-credential message, the access-denied message
    or the status line, and a 500 whose body parses with the server-error
    message, whatever the body says. *)
Theorem fixed_messages_for_403_and_500 (r : response) :
  key_missing K = false ->
  fetch the_request = inr r ->
  let out := snd call in
  let d := StatusDetails (status r) (statusText r) in
  (status r = 403%Z ->
     out = raises MSG_INVALID_KEY d
     \/ out = raises MSG_ACCESS_DENIED d
     \/ out = raises (status_line r) d)
  /\ (status r = 500%Z ->
      forall errorData, json_body r = inr errorData -> out = raises MSG_SERVER_ERROR d).
Proof.
  intros HK Hf out d. subst out d.
  rewrite (ApiFacts.sendChatMessage_response _ _ _ _ _ _ _ _ HK Hf). cbn [snd]. split.
  - intros Hs.
    assert (Hok : ok r = false) by (unfold ok; rewrite Hs; reflexivity).
    destruct (ApiFacts.handle_response_failed r Hok) as (v & Hv & Hout).
    destruct (errorMessage_of_403 r Hs) as (m & Hm & Hcases).
    rewrite Hm in Hv. injection Hv as <-. rewrite Hout. unfold raised. cbn [render toString].
    destruct Hcases as [-> | [-> | ->]]; auto.
  - intros Hs errorData Hbody.
    assert (Hok : ok r = false) by (unfold ok; rewrite Hs; reflexivity).
    destruct (ApiFacts.handle_response_failed r Hok) as (v & Hv & Hout).
    rewrite (errorMessage_of_500 r errorData Hs Hbody) in Hv.
    injection Hv as <-. rewrite Hout. reflexivity.
Qed.

End Call.

Lemma request_is_authorized_post_witness :
  header "Authorization"
    (headers (request_of (Some "key") "hello" None None None None))
  = Some "Bearer key".
Proof.
  destruct (request_is_authorized_post (Some "key")
              (respond 200 "OK" (inr (body_with_error JNull)))
              "hello" None None None None
              (request_of (Some "key") "hello" None None None None))
    as (_ & _ & _ & _ & _ & H & _).
  - vm_compute. left. reflexivity.
  - exact H.
Defined.

Lemma returned_body_comes_from_success_witness :
  exists r,
    respond 200 "OK" (inr (body_with_error JNull))
      (request_of (Some "key") "hello" None None None None) = inr r
    /\ ok r = true.
Proof.
  destruct (returned_body_comes_from_success (Some "key")
              (respond 200 "OK" (inr (body_with_error JNull)))
              "hello" None None None None (body_with_error JNull))
    as (_ & r & H1 & H2 & _).
  - vm_compute. reflexivity.
  - exists r. split; assumption.
Defined.

Lemma success_without_usable_body_witness :
  snd (sendChatMessage (Some "key")
         (respond 200 "OK" (inl {| err_class := SyntaxError;
                                   err_message := "Unexpected token < in JSON" |}))
         "hello" None None None None)
  = raises MSG_UNEXPECTED
      (CauseDetails {| err_class := SyntaxError;
                       err_message := "Unexpected token < in JSON" |}).
Proof.
  destruct (success_without_usable_body (Some "key")
              (respond 200 "OK" (inl {| err_class := SyntaxError;
                                        err_message := "Unexpected token < in JSON" |}))
              "hello" None None None None
              {| status := 200; statusText := "OK";
                 json_body := inl {| err_class := SyntaxError;
                                     err_message := "Unexpected token < in JSON" |} |}
              eq_refl eq_refl eq_refl) as (H & _).
  apply (H _ eq_refl).
Defined.

Lemma fixed_messages_for_403_and_500_witness :
  snd (sendChatMessage (Some "key")
         (respond 500 "Internal Server Error"
            (inr (JObj [("message", JStr "stack trace")])))
         "hello" None None None None)
  = raises MSG_SERVER_ERROR (StatusDetails 500 "Internal Server Error").
Proof.
  destruct (fixed_messages_for_403_and_500 (Some "key")
              (respond 500 "Internal Server Error"
                 (inr (JObj [("message", JStr "stack trace")])))
              "hello" None None None None
              {| status := 500; statusText := "Internal Server Error";
                 json_body := inr (JObj [("message", JStr "stack trace")]) |}
              eq_refl eq_refl) as (_ & H).
  apply (H eq_refl _ eq_refl).
Defined.

End ApiExtras.

(** * Further properties of the speech controller *)

Module SpeechExtras.
Import JS Speech Samples Observations.

Ltac fields s :=
  destruct s as [lis tr sup rref cbref fin voice tref proc last tm nt ne].

(** ** Logs and strings *)

Lemma engine_effects_app (t u : list event) :
  engine_effects (t ++ u) = (engine_effects t ++ engine_effects u)%list.
Proof. apply filter_app. Qed.

Lemma noticeable_app (t u : list event) :
  filter noticeable (t ++ u) = (filter noticeable t ++ filter noticeable u)%list.
Proof. apply filter_app. Qed.

Lemma append_empty_r (s : string) : s ++ "" = s.
Proof. induction s as [|c s IH]; simpl; [reflexivity | rewrite IH; reflexivity]. Qed.

Lemma append_assoc (a b c : string) : (a ++ b) ++ c = a ++ (b ++ c).
Proof. induction a as [|x a IH]; simpl; [reflexivity | rewrite IH; reflexivity]. Qed.

Lemma released_tracks (n : nat) : released (repeat TrackStop n) = n.
Proof. induction n as [|n IH]; simpl; [reflexivity | rewrite IH; reflexivity]. Qed.

Lemma repeat_TrackStop_quiet (n : nat) :
  engine_effects (repeat TrackStop n) = [] /\ ~ In (Alert ALERT_MICROPHONE) (repeat TrackStop n).
Proof.
  induction n as [|n [IH1 IH2]]; simpl; split; trivial.
  - intros [].
  - intros [H | H]; [discriminate | exact (IH2 H)].
Qed.

(** ** The permission check *)

(** [checkMicrophonePermission] answers true exactly when the permission
    query, where the platform has one, settles to a state other than
    "denied" and the microphone can then be opened.  On "denied" the
    microphone is not probed; on success every track of the probe stream is
    released. *)
Theorem permission_check_result (p : platform) :
  (fst (checkMicrophonePermission p) = true <->
     (has_permissions p = false
      \/ exists st, permissions_query p = inr st /\ st <> denied)
     /\ exists tracks, getUserMedia p = inr tracks)
  /\ (has_permissions p = true -> permissions_query p = inr denied ->
        snd (checkMicrophonePermission p) = [PermissionsQuery])
  /\ (forall tracks, fst (checkMicrophonePermission p) = true ->
        getUserMedia p = inr tracks ->
        released (snd (checkMicrophonePermission p)) = tracks).
Proof.
  unfold checkMicrophonePermission.
  destruct p as [hp q g sr c st].
  cbn [has_permissions permissions_query getUserMedia].
  split; [|split].
  - destruct hp, q as [qe|[| |]], g as [ge|tracks]; cbn [fst snd];
      (split; [intros H | intros [[H | (x & H & Hx)] (y & Hy)]]);
      try discriminate H; try reflexivity; try congruence;
      (split;
       [first [left; reflexivity
              | right; eexists; split; [reflexivity | discriminate]]
       | eexists; reflexivity]).
  - intros -> ->. reflexivity.
  - intros tracks Hres ->.
    destruct hp; [destruct q as [qe|[| |]]|]; cbn [fst snd] in *;
      try discriminate Hres; cbn [released]; apply released_tracks.
Qed.

Lemma permission_check_result_witness :
  snd (checkMicrophonePermission browser_denied) = [PermissionsQuery].
Proof.
  destruct (permission_check_result browser_denied) as (_ & H & _).
  apply H; reflexivity.
Defined.

(** When the permission check fails, a supported [startListening] shows
    the permission alert after the probes and does nothing else: the state
    is the one it was called in, no engine is created, and the promise
    resolves. *)
Theorem denied_permission_alerts_and_stays_idle
    (p : platform) (onSpeechEnd : option callback) (s : state) :
  isSupported s = true ->
  fst (checkMicrophonePermission p) = false ->
  startListening p onSpeechEnd s
  = (s, (snd (checkMicrophonePermission p) ++ [Alert ALERT_MICROPHONE])%list, Resolved)
  /\ engine_effects (snd (fst (startListening p onSpeechEnd s))) = [].
Proof.
  intros Hs Hc.
  assert (E : startListening p onSpeechEnd s
              = (s, (snd (checkMicrophonePermission p) ++ [Alert ALERT_MICROPHONE])%list,
                 Resolved)).
  { rewrite SpeechFacts.startListening_eq. rewrite Hs. cbn [negb].
    destruct (checkMicrophonePermission p) as [b probed]. cbn [fst snd] in *.
    subst b. reflexivity. }
  split; [exact E|]. rewrite E. cbn [fst snd].
  rewrite engine_effects_app. cbn. rewrite app_nil_r.
  unfold checkMicrophonePermission.
  destruct p as [hp [qe|[| |]] [ge|tracks] sr c st]; destruct hp; cbn;
    try reflexivity; apply repeat_TrackStop_quiet.
Qed.

Lemma denied_permission_alerts_and_stays_idle_witness :
  startListening browser_denied (Some 7) mounted
  = (mounted, [PermissionsQuery; Alert ALERT_MICROPHONE], Resolved).
Proof.
  destruct (denied_permission_alerts_and_stays_idle browser_denied (Some 7) mounted
              eq_refl eq_refl) as (H & _).
  exact H.
Defined.

(** ** Stopping *)

(** [stopListening] returns the hook to idle in every state: no engine is
    held, the flags of the session and the restart handle are cleared, and
    the only engine call is the abort of the engine that was held.  The
    transcript and the final buffer are kept.  A second call changes nothing
    and only writes its log line. *)
Theorem stopListening_is_idempotent (s : state) :
  let s' := fst (stopListening s) in
  stopListening s' = (s', [ConsoleLog "Stopping speech recognition"])
  /\ isListening s' = false
  /\ recognitionRef s' = None
  /\ isVoiceModeRef s' = false
  /\ onSpeechEndRef s' = None
  /\ isProcessingRef s' = false
  /\ lastProcessedTextRef s' = ""
  /\ timeoutRef s' = None
  /\ transcript s' = transcript s
  /\ finalTranscriptRef s' = finalTranscriptRef s
  /\ engine_effects (snd (stopListening s))
     = match recognitionRef s with Some r => [EngineAbort r] | None => [] end.
Proof.
  fields s. destruct tref, rref; repeat apply conj; reflexivity.
Qed.

(** ** Result events *)

Lemma collect_spec (l : list SpeechRecognitionResult) (i f b : string) :
  collect l (i, f, b) = (i ++ interims l, f ++ finals l, b ++ finals l).
Proof.
  revert i f b. induction l as [|x l IH]; intros i f b; simpl.
  - rewrite !append_empty_r. reflexivity.
  - destruct (isFinal x); rewrite IH, ?append_assoc; reflexivity.
Qed.

(** What one result event does to the texts, and what it leaves alone. *)
Lemma onresult_texts (recognition : engine) (event : SpeechRecognitionEvent) (s : state) :
  let s' := fst (onresult recognition event s) in
  let t := snd (onresult recognition event s) in
  finalTranscriptRef s' = finalTranscriptRef s ++ finals (segments event)
  /\ transcript s'
     = (finalTranscriptRef s ++ finals (segments event)) ++ interims (segments event)
  /\ isListening s' = isListening s
  /\ recognitionRef s' = recognitionRef s
  /\ isSupported s' = isSupported s
  /\ next_engine s' = next_engine s
  /\ engine_effects t = if gate event s then [EngineStop recognition] else [].
Proof.
  unfold onresult, gate, segments. rewrite collect_spec. cbn [append].
  generalize (finals (skipn (resultIndex event) (results event))) as f.
  generalize (interims (skipn (resultIndex event) (results event))) as i.
  intros i f. fields s.
  unfold seq, when, modify, emit, setTimeout.
  cbn [fst snd isVoiceModeRef onSpeechEndRef timeoutRef isProcessingRef
       lastProcessedTextRef timers next_timer finalTranscriptRef
       set_finalTranscriptRef set_transcript].
  generalize (trim (fin ++ f)) as fullText. intros fullText.
  destruct (nonempty f), voice, (is_some cbref), proc, (nonempty fullText),
    (fullText =? last), (2 <? utf16_length fullText)%nat;
    cbn; repeat split.
Qed.

(** ** Engine errors *)

Lemma gate_spec (event : SpeechRecognitionEvent) (s : state) :
  gate event s
  = nonempty (finals (segments event)) && isVoiceModeRef s && is_some (onSpeechEndRef s)
    && negb (isProcessingRef s)
    && nonempty (fullText_after event s)
    && negb (fullText_after event s =? lastProcessedTextRef s)
    && (2 <? utf16_length (fullText_after event s))%nat.
Proof.
  unfold gate, fullText_after, segments. rewrite collect_spec. reflexivity.
Qed.

(** Whatever the error code, the error handler leaves the hook without an
    engine, not listening and with no dispatch in flight, and touches neither
    the mode, the callback, the texts nor the timers.  The permission alert
    is shown exactly for "not-allowed", and an error is written to the
    console exactly when the code is not "aborted".  Since the final buffer
    survives while the in-flight flag does not, in voice mode the result
    handler, run after an error, hands the accumulated trimmed text to a
    dispatch timer exactly when the event carries finalized text and that
    text is non-empty, longer than 2 code units and differs from the last
    one dispatched. *)
Theorem onerror_always_clears (recognition : engine) (error : string) (s : state) :
  let s' := fst (onerror recognition error s) in
  let t := snd (onerror recognition error s) in
  isListening s' = false
  /\ recognitionRef s' = None
  /\ isProcessingRef s' = false
  /\ isVoiceModeRef s' = isVoiceModeRef s
  /\ onSpeechEndRef s' = onSpeechEndRef s
  /\ transcript s' = transcript s
  /\ finalTranscriptRef s' = finalTranscriptRef s
  /\ lastProcessedTextRef s' = lastProcessedTextRef s
  /\ timers s' = timers s
  /\ timeoutRef s' = timeoutRef s
  /\ (In (Alert ALERT_MICROPHONE) t <-> error = "not-allowed")
  /\ ((exists tag, In (ConsoleError tag) t) <-> error <> "aborted")
  /\ engine_effects t = []
  /\ (isVoiceModeRef s = true -> is_some (onSpeechEndRef s) = true ->
      forall recognition' event,
        dispatched (snd (onresult recognition' event s'))
        = if nonempty (finals (segments event))
             && nonempty (fullText_after event s)
             && negb (fullText_after event s =? lastProcessedTextRef s)
             && (2 <? utf16_length (fullText_after event s))%nat
          then [fullText_after event s]
          else []).
Proof.
  assert (Hgate : forall s', isProcessingRef s' = false ->
            isVoiceModeRef s' = isVoiceModeRef s ->
            onSpeechEndRef s' = onSpeechEndRef s ->
            finalTranscriptRef s' = finalTranscriptRef s ->
            lastProcessedTextRef s' = lastProcessedTextRef s ->
            isVoiceModeRef s = true -> is_some (onSpeechEndRef s) = true ->
            forall event,
              gate event s'
              = nonempty (finals (segments event))
                && nonempty (fullText_after event s)
                && negb (fullText_after event s =? lastProcessedTextRef s)
                && (2 <? utf16_length (fullText_after event s))%nat).
  { intros s' Hp Hv Hc Hf Hl Hvs Hcs event. rewrite gate_spec.
    unfold fullText_after. rewrite Hp, Hv, Hc, Hf, Hl, Hvs, Hcs.
    cbn [negb]. rewrite !andb_true_r. reflexivity. }
  cbv zeta.
  assert (Hfields :
    isListening (fst (onerror recognition error s)) = false
    /\ recognitionRef (fst (onerror recognition error s)) = None
    /\ isProcessingRef (fst (onerror recognition error s)) = false
    /\ isVoiceModeRef (fst (onerror recognition error s)) = isVoiceModeRef s
    /\ onSpeechEndRef (fst (onerror recognition error s)) = onSpeechEndRef s
    /\ transcript (fst (onerror recognition error s)) = transcript s
    /\ finalTranscriptRef (fst (onerror recognition error s)) = finalTranscriptRef s
    /\ lastProcessedTextRef (fst (onerror recognition error s)) = lastProcessedTextRef s
    /\ timers (fst (onerror recognition error s)) = timers s
    /\ timeoutRef (fst (onerror recognition error s)) = timeoutRef s).
  { clear Hgate. fields s. unfold onerror.
    destruct (error =? "aborted"); [|destruct (error =? "not-allowed")];
      repeat split. }
  destruct Hfields as (F1 & F2 & F3 & F4 & F5 & F6 & F7 & F8 & F9 & F10).
  do 10 (split; [assumption|]).
  assert (Hdispatch :
    isVoiceModeRef s = true -> is_some (onSpeechEndRef s) = true ->
    forall recognition' event,
      dispatched (snd (onresult recognition' event (fst (onerror recognition error s))))
      = if nonempty (finals (segments event))
           && nonempty (fullText_after event s)
           && negb (fullText_after event s =? lastProcessedTextRef s)
           && (2 <? utf16_length (fullText_after event s))%nat
        then [fullText_after event s]
        else []).
  { intros Hvs Hcs recognition' event.
    pose proof (SpeechFacts.onresult_effect recognition' event
                  (fst (onerror recognition error s))) as H. cbv zeta in H.
    destruct H as (_ & _ & _ & _ & H).
    rewrite (Hgate _ F3 F4 F5 F7 F8 Hvs Hcs event) in H.
    replace (fullText_after event (fst (onerror recognition error s)))
      with (fullText_after event s) in H
      by (unfold fullText_after; rewrite F7; reflexivity).
    destruct (nonempty (finals (segments event)) && _ && _ && _);
      destruct H as (H & _); exact H. }
  split; [|split; [|split; [|exact Hdispatch]]]; clear Hdispatch;
    clear; fields s; unfold onerror;
    (destruct (String.eqb_spec error "aborted") as [Ea|Ea];
     [|destruct (String.eqb_spec error "not-allowed") as [En|En]]);
    cbn; try reflexivity; split.
  - intros [H|[]]; discriminate.
  - intros E. subst error. discriminate.
  - intros _; exact En.
  - intros _; right; left; reflexivity.
  - intros [H|[]]; discriminate.
  - intros H; contradiction.
  - intros (tag & [H|[]]); discriminate.
  - intros H; contradiction.
  - intros _; exact Ea.
  - intros _; eexists; left; reflexivity.
  - intros _; exact Ea.
  - intros _; eexists; left; reflexivity.
Qed.

Lemma run_concat (l1 l2 : list input) (s : state) :
  fst (run (l1 ++ l2) s) = fst (run l2 (fst (run l1 s))).
Proof.
  revert s. induction l1 as [|i l1 IH]; intros s; [reflexivity|].
  cbn [app]. rewrite !SpeechFacts.run_cons, !SpeechFacts.seq_fst. apply IH.
Qed.

Lemma results_of_app (l1 l2 : list (engine * SpeechRecognitionEvent)) :
  results_of (l1 ++ l2) = (results_of l1 ++ results_of l2)%list.
Proof. apply map_app. Qed.

Lemma final_buffer_after (l : list (engine * SpeechRecognitionEvent)) (s : state) :
  finalTranscriptRef (fst (run (results_of l) s)) = finalTranscriptRef s ++ all_finals l.
Proof.
  revert s. induction l as [|[r ev] l IH]; intros s.
  - cbn. rewrite append_empty_r. reflexivity.
  - cbn [results_of map fst snd all_finals]. fold (results_of l).
    rewrite SpeechFacts.run_cons, SpeechFacts.seq_fst. cbn [step]. rewrite IH.
    pose proof (onresult_texts r ev s) as H. cbv zeta in H. destruct H as (H & _).
    rewrite H, append_assoc. reflexivity.
Qed.

(** The final buffer only grows: after any sequence of result events it
    is what it was followed by the finalized segments of the events, in
    order; interim segments never enter it.  The displayed transcript after
    an event is the buffer followed by the interim segments of that event
    alone. *)
Theorem transcript_accumulates
    (l : list (engine * SpeechRecognitionEvent)) (recognition : engine)
    (event : SpeechRecognitionEvent) (s : state) :
  finalTranscriptRef (fst (run (results_of l) s)) = finalTranscriptRef s ++ all_finals l
  /\ transcript (fst (run (results_of (l ++ [(recognition, event)])) s))
     = (finalTranscriptRef s ++ all_finals l ++ finals (segments event))
       ++ interims (segments event).
Proof.
  split; [apply final_buffer_after|].
  rewrite results_of_app, run_concat.
  cbn [results_of map fst snd]. rewrite SpeechFacts.run_cons, SpeechFacts.seq_fst.
  cbn [step run skip fst].
  pose proof (onresult_texts recognition event (fst (run (results_of l) s))) as H.
  cbv zeta in H. destruct H as (_ & H & _).
  rewrite H, final_buffer_after. f_equal. apply append_assoc.
Qed.

Lemma manual_gate (event : SpeechRecognitionEvent) (s : state) :
  isVoiceModeRef s = false \/ onSpeechEndRef s = None -> gate event s = false.
Proof.
  intros H. destruct (gate event s) eqn:G; [|reflexivity].
  apply SpeechFacts.gate_conditions in G. destruct G as (_ & Gv & Gc & _).
  destruct H as [H | H]; [congruence | rewrite H in Gc; discriminate].
Qed.

(** Without voice mode, or without a callback, no sequence of result
    events dispatches anything: no dispatch timer is scheduled, no engine is
    stopped, no callback runs, and the dispatch bookkeeping is untouched. *)
Theorem manual_mode_never_dispatches
    (l : list (engine * SpeechRecognitionEvent)) (s : state) :
  isVoiceModeRef s = false \/ onSpeechEndRef s = None ->
  let out := run (results_of l) s in
  dispatched (snd out) = []
  /\ engine_effects (snd out) = []
  /\ invocations (snd out) = []
  /\ timers (fst out) = timers s
  /\ isProcessingRef (fst out) = isProcessingRef s
  /\ lastProcessedTextRef (fst out) = lastProcessedTextRef s.
Proof.
  revert s. induction l as [|[r ev] l IH]; intros s H.
  - repeat split.
  - cbv zeta. cbn [results_of map fst snd]. fold (results_of l).
    rewrite SpeechFacts.run_cons, SpeechFacts.seq_fst, SpeechFacts.seq_snd.
    rewrite SpeechFacts.dispatched_app, SpeechFacts.invocations_app, engine_effects_app.
    cbn [step].
    pose proof (SpeechFacts.onresult_effect r ev s) as E. cbv zeta in E.
    pose proof (onresult_texts r ev s) as T. cbv zeta in T.
    rewrite (manual_gate ev s H) in E, T.
    destruct E as (Ev & Ec & _ & Ei & Ed & Ep & El & Et & _).
    destruct T as (_ & _ & _ & _ & _ & _ & Te).
    assert (H' : isVoiceModeRef (fst (onresult r ev s)) = false
                 \/ onSpeechEndRef (fst (onresult r ev s)) = None).
    { rewrite Ev, Ec. exact H. }
    specialize (IH _ H'). cbv zeta in IH.
    destruct IH as (I1 & I2 & I3 & I4 & I5 & I6).
    rewrite Ed, Ei, Te, I1, I2, I3, I4, I5, I6, Et, Ep, El. repeat split.
Qed.

Lemma manual_mode_never_dispatches_witness :
  dispatched (snd (run (results_of dictation) mounted)) = []
  /\ engine_effects (snd (run (results_of dictation) mounted)) = [].
Proof.
  destruct (manual_mode_never_dispatches dictation mounted (or_introl eq_refl))
    as (H1 & H2 & _).
  split; assumption.
Defined.

(** ** Starting a session *)

Lemma check_quiet (p : platform) :
  engine_effects (snd (checkMicrophonePermission p)) = [].
Proof.
  unfold checkMicrophonePermission.
  destruct p as [hp [qe|[| |]] [ge|tracks] sr c st]; destruct hp; cbn;
    try reflexivity; apply repeat_TrackStop_quiet.
Qed.

Lemma startListening_started (p : platform) (cb : option callback) (s : state) :
  reaches_cleanup p s = true ->
  construct p = None ->
  start p = None ->
  let s' := fst (fst (startListening p cb s)) in
  recognitionRef s' = Some (next_engine s)
  /\ next_engine s' = S (next_engine s)
  /\ isVoiceModeRef s' = is_some cb
  /\ onSpeechEndRef s' = cb
  /\ finalTranscriptRef s' = ""
  /\ lastProcessedTextRef s' = ""
  /\ isProcessingRef s' = false
  /\ isListening s' = false
  /\ transcript s' = transcript s
  /\ timeoutRef s' = None
  /\ isSupported s' = isSupported s
  /\ In (EngineStart (next_engine s)) (snd (fst (startListening p cb s)))
  /\ snd (startListening p cb s) = Resolved.
Proof.
  intros Hr Hc Hs. unfold reaches_cleanup in Hr.
  apply andb_prop in Hr. destruct Hr as [Hr H3].
  apply andb_prop in Hr. destruct Hr as [H1 H2].
  rewrite SpeechFacts.startListening_eq. rewrite H1. cbn [negb].
  destruct (checkMicrophonePermission p) as [b probed]. cbn [fst] in H2. subst b.
  cbn [negb]. rewrite H3, Hc, Hs. cbn [negb].
  fields s. cbn in H1.
  destruct tref, rref; cbn; repeat apply conj; try reflexivity; try exact H1;
    apply in_or_app; right; simpl; tauto.
Qed.

(** A session that starts forgets the previous one: once [startListening]
    has created and started its engine and the engine has reported its
    start, the hook is listening to the new engine with an empty transcript,
    an empty final buffer, no last dispatched text and no dispatch in flight;
    it is in voice mode exactly when a callback was passed, and holds that
    callback. *)
Theorem session_starts_clean
    (p : platform) (onSpeechEnd : option callback) (recognition : engine) (s : state) :
  reaches_cleanup p s = true ->
  construct p = None ->
  start p = None ->
  let s' := fst (run [CallStart p onSpeechEnd; OnStart recognition] s) in
  isListening s' = true
  /\ recognitionRef s' = Some (next_engine s)
  /\ transcript s' = ""
  /\ finalTranscriptRef s' = ""
  /\ lastProcessedTextRef s' = ""
  /\ isProcessingRef s' = false
  /\ isVoiceModeRef s' = is_some onSpeechEnd
  /\ onSpeechEndRef s' = onSpeechEnd
  /\ timeoutRef s' = None.
Proof.
  intros Hr Hc Hs.
  pose proof (startListening_started p onSpeechEnd s Hr Hc Hs) as H. cbv zeta in H.
  destruct H as (A1 & _ & A3 & A4 & A5 & A6 & A7 & _ & _ & A10 & _).
  cbv zeta. rewrite !SpeechFacts.run_cons, !SpeechFacts.seq_fst. cbn [step run skip fst].
  destruct (fst (fst (startListening p onSpeechEnd s))).
  cbn in *. repeat split; assumption.
Qed.

Lemma session_starts_clean_witness :
  isListening voice_session = true
  /\ recognitionRef voice_session = Some 0
  /\ isVoiceModeRef voice_session = true.
Proof.
  destruct (session_starts_clean browser (Some 7) 0 mounted eq_refl eq_refl eq_refl)
    as (H1 & H2 & _ & _ & _ & _ & H3 & _).
  repeat split; assumption.
Defined.

Lemma onend_effect (recognition : engine) (s : state) :
  let s' := fst (onend recognition s) in
  isListening s' = false
  /\ recognitionRef s' = None
  /\ finalTranscriptRef s' = finalTranscriptRef s
  /\ transcript s'
     = if negb (isVoiceModeRef s) && nonempty (finalTranscriptRef s)
       then finalTranscriptRef s else transcript s.
Proof.
  fields s. unfold onend, seq, when, modify, emit. cbn.
  destruct (negb voice && nonempty fin); repeat split.
Qed.

(** A manual session from start to end: after [startListening] without a
    callback, the engine's start, any result events and the engine's end,
    the hook is idle, and what it exposes is the finalized text of the
    session, all finalized segments in order and no interim one, provided
    there is any. *)
Theorem manual_session_keeps_final_text
    (p : platform) (r r' : engine) (l : list (engine * SpeechRecognitionEvent))
    (s : state) :
  reaches_cleanup p s = true ->
  construct p = None ->
  start p = None ->
  let s' := fst (run (CallStart p None :: OnStart r :: results_of l ++ [OnEnd r']) s) in
  isListening s' = false
  /\ recognitionRef s' = None
  /\ finalTranscriptRef s' = all_finals l
  /\ (all_finals l <> "" -> transcript s' = all_finals l).
Proof.
  intros Hr Hc Hs.
  pose proof (session_starts_clean p None r s Hr Hc Hs) as H. cbv zeta in H.
  destruct H as (_ & _ & _ & Hfin & _ & _ & Hv & Hcb & _).
  cbv zeta.
  change (CallStart p None :: OnStart r :: results_of l ++ [OnEnd r'])%list
    with ([CallStart p None; OnStart r] ++ (results_of l ++ [OnEnd r']))%list.
  rewrite run_concat, run_concat.
  set (s1 := fst (run [CallStart p None; OnStart r] s)) in *.
  pose proof (final_buffer_after l s1) as Hbuf. rewrite Hfin in Hbuf. cbn [append] in Hbuf.
  assert (Hvoice : isVoiceModeRef (fst (run (results_of l) s1)) = false).
  { clear Hbuf. revert Hv. generalize s1. clear.
    induction l as [|[r ev] l IH]; intros s Hv; [exact Hv|].
    cbn [results_of map fst snd]. fold (results_of l).
    rewrite SpeechFacts.run_cons, SpeechFacts.seq_fst. cbn [step]. apply IH.
    pose proof (SpeechFacts.onresult_effect r ev s) as E. cbv zeta in E.
    destruct E as (E & _). rewrite E. exact Hv. }
  rewrite SpeechFacts.run_cons, SpeechFacts.seq_fst. cbn [step run skip fst].
  pose proof (onend_effect r' (fst (run (results_of l) s1))) as E. cbv zeta in E.
  destruct E as (E1 & E2 & E3 & E4).
  rewrite Hvoice, Hbuf in E4. rewrite Hbuf in E3. cbn [negb andb] in E4.
  repeat apply conj; try assumption.
  intros Hne. rewrite E4. unfold nonempty.
  destruct (String.eqb_spec (all_finals l) ""); [contradiction | reflexivity].
Qed.

Lemma manual_session_keeps_final_text_witness :
  transcript
    (fst (run (CallStart browser None :: OnStart 0 :: results_of dictation ++ [OnEnd 0])
            mounted))
  = "merhaba".
Proof.
  destruct (manual_session_keeps_final_text browser 0 0 dictation mounted
              eq_refl eq_refl eq_refl) as (_ & _ & _ & H).
  apply H. discriminate.
Defined.

(** ** One engine at a time *)

Lemma startListening_engine_known (p : platform) (cb : option callback) (s : state) :
  engine_known s -> engine_known (fst (fst (startListening p cb s))).
Proof.
  unfold engine_known. rewrite SpeechFacts.startListening_eq. intros H.
  destruct (negb (isSupported s)); [exact H|].
  destruct (checkMicrophonePermission p) as [b probed].
  destruct (negb b); [exact H|].
  destruct (negb (SpeechRecognition p)); [exact H|].
  fields s. destruct tref, rref, (construct p), (start p); cbn;
    intros r E; try discriminate E; injection E as <-; lia.
Qed.

Lemma startListening_resume_engine_known (p : platform) (cb : option callback) (s : state) :
  engine_known s -> engine_known (fst (fst (startListening_resume p cb s))).
Proof.
  unfold engine_known, startListening_resume. intros H.
  destruct (negb (fst (checkMicrophonePermission p))); [exact H|].
  destruct (negb (SpeechRecognition p)); [exact H|].
  fields s. destruct tref, rref, (construct p), (start p); cbn;
    intros r E; try discriminate E; injection E as <-; lia.
Qed.

Lemma step_engine_known (i : input) (s : state) :
  engine_known s -> engine_known (fst (step i s)).
Proof.
  intros H.
  destruct i as [p | p cb | | | cb | r | r ev | r | r e | p id | p | p cb | p id];
    cbn [step].
  - fields s. unfold mount, when. destruct (SpeechRecognition p); exact H.
  - apply startListening_engine_known, H.
  - fields s. destruct tref, rref; intros r E; discriminate E.
  - fields s. exact H.
  - fields s. destruct tref; exact H.
  - fields s. exact H.
  - pose proof (onresult_texts r ev s) as T. cbv zeta in T.
    destruct T as (_ & _ & _ & T1 & _ & T2 & _).
    unfold engine_known. rewrite T1, T2. exact H.
  - fields s. unfold onend, seq, when, modify, emit. cbn.
    destruct (negb voice && nonempty fin); intros x E; discriminate E.
  - fields s. unfold onerror. destruct (e =? "aborted"); [intros x E; discriminate E|].
    destruct (e =? "not-allowed"); intros x E; discriminate E.
  - unfold fire_timer. destruct (find_timer id (timers s)) as [t|]; [|exact H].
    assert (H1 : engine_known (set_timers (remove_timer id (timers s)) s)).
    { fields s. exact H. }
    destruct t as [[cb|] text | cb]; try exact H1.
    destruct (isVoiceModeRef _); [|exact H1].
    apply startListening_engine_known, H1.
  - rewrite SpeechFacts.startListening_begin_state. exact H.
  - apply startListening_resume_engine_known, H.
  - unfold fire_timer_begin. destruct (find_timer id (timers s)) as [t|]; [|exact H].
    assert (H1 : engine_known (set_timers (remove_timer id (timers s)) s)).
    { fields s. exact H. }
    destruct t as [[cb|] text | cb]; try exact H1.
    destruct (isVoiceModeRef _); [|exact H1].
    rewrite SpeechFacts.startListening_begin_state. exact H1.
Qed.

Lemma reachable_engine_known (s : state) : reachable s -> engine_known s.
Proof.
  intros [l ->]. assert (H : engine_known init) by (intros r E; discriminate E).
  revert H. generalize init. induction l as [|i l IH]; intros s H; [exact H|].
  rewrite SpeechFacts.run_cons, SpeechFacts.seq_fst. apply IH, step_engine_known, H.
Qed.

(** The hook holds one engine at a time.  A [startListening] that gets to
    create an engine first aborts the one it holds, then creates the new one
    and starts it; these are its only engine calls, in this order.  The new
    engine is none the hook has held: in every reachable state the engine
    held was created earlier. *)
Theorem new_engine_replaces_old
    (p : platform) (onSpeechEnd : option callback) (s : state) :
  reachable s ->
  reaches_cleanup p s = true ->
  construct p = None ->
  engine_effects (snd (fst (startListening p onSpeechEnd s)))
  = (match recognitionRef s with Some r => [EngineAbort r] | None => [] end
     ++ EngineNew (next_engine s)
        :: match start p with
           | None => [EngineStart (next_engine s)]
           | Some _ => []
           end)%list
  /\ recognitionRef s <> Some (next_engine s).
Proof.
  intros Hreach Hr Hc. split.
  - unfold reaches_cleanup in Hr.
    apply andb_prop in Hr. destruct Hr as [Hr H3].
    apply andb_prop in Hr. destruct Hr as [H1 H2].
    pose proof (check_quiet p) as Hq.
    rewrite SpeechFacts.startListening_eq. rewrite H1. cbn [negb].
    destruct (checkMicrophonePermission p) as [b probed]. cbn [fst snd] in H2, Hq.
    subst b. cbn [negb]. rewrite H3, Hc. cbn [negb].
    unfold engine_effects in *.
    fields s. destruct tref, rref, (start p); cbn;
      rewrite filter_app, Hq; reflexivity.
  - intros E. apply (reachable_engine_known s Hreach) in E. lia.
Qed.

Lemma new_engine_replaces_old_witness :
  engine_effects (snd (fst (startListening browser None voice_session)))
  = [EngineAbort 0; EngineNew 1; EngineStart 1].
Proof.
  assert (R : reachable voice_session).
  { exists [Mount browser; CallStart browser (Some 7); OnStart 0]. reflexivity. }
  destruct (new_engine_replaces_old browser None voice_session R eq_refl eq_refl)
    as (H & _).
  exact H.
Defined.

(** ** The restart timer *)

Lemma at_most_one_with_handle (tm : list (timer_id * task)) (q : timer_id * task -> bool)
    (id0 : timer_id) :
  NoDup (map fst tm) ->
  (forall x, In x tm -> q x = true -> fst x = id0) ->
  List.length (filter q tm) <= 1.
Proof.
  induction tm as [|x tm IH]; intros Hnd Hid; [simpl; lia|].
  inversion Hnd as [|? ? Hn Hd]; subst. simpl.
  assert (Hid' : forall y, In y tm -> q y = true -> fst y = id0).
  { intros y Hy. apply Hid. right. exact Hy. }
  destruct (q x) eqn:Hq; [|apply IH; assumption].
  destruct (filter q tm) as [|y rest] eqn:Hf; [simpl; lia|].
  assert (Hy : In y (filter q tm)) by (rewrite Hf; left; reflexivity).
  apply filter_In in Hy. destruct Hy as [Hy Hqy].
  exfalso. apply Hn. apply in_map_iff. exists y. split; [|exact Hy].
  rewrite (Hid' y Hy Hqy). symmetry. apply Hid; [left; reflexivity | exact Hq].
Qed.

Lemma restartListening_frame (cb : callback) (s : state) :
  let s' := fst (restartListening cb s) in
  isSupported s' = isSupported s
  /\ isVoiceModeRef s' = isVoiceModeRef s
  /\ recognitionRef s' = recognitionRef s
  /\ next_engine s' = next_engine s
  /\ isListening s' = isListening s.
Proof. fields s. destruct tref; repeat split. Qed.

Lemma find_timer_last (tm : list (timer_id * task)) (id : timer_id) (t : task) :
  (forall i u, In (i, u) tm -> (i < id)%positive) ->
  find_timer id (tm ++ [(id, t)]) = Some t.
Proof.
  induction tm as [|[i u] tm IH]; intros H; simpl.
  - rewrite Pos.eqb_refl. reflexivity.
  - destruct (Pos.eqb_spec i id) as [E|_].
    + exfalso. specialize (H i u (or_introl eq_refl)). lia.
    + apply IH. intros j v Hj. apply (H j v). right. exact Hj.
Qed.

(** In every reachable state at most one restart timer is pending, and it
    is the one whose handle [timeoutRef] holds; [restartListening] replaces
    whatever restart was pending by its own. *)
Theorem one_restart_timer_at_most (s : state) :
  reachable s ->
  List.length (pending_restarts s) <= 1
  /\ (forall id cb, In (id, RestartTask cb) (timers s) -> timeoutRef s = Some id)
  /\ (forall cb,
        pending_restarts (fst (restartListening cb s)) = [(next_timer s, RestartTask cb)]).
Proof.
  intros Hr. apply SpeechFacts.reachable_tracked in Hr.
  pose proof Hr as (H1 & H2 & H3 & H4 & H5).
  repeat apply conj.
  - unfold pending_restarts.
    destruct (timeoutRef s) as [id0|] eqn:Eref.
    + apply (at_most_one_with_handle _ _ id0 H5).
      intros [i [c text | c]] Hin Hq; [discriminate Hq|].
      specialize (H3 i c Hin). injection H3 as <-. reflexivity.
    + rewrite SpeechFacts.no_restart_pending; [simpl; lia|].
      intros i c Hin. specialize (H3 i c Hin). discriminate H3.
  - destruct Hr as (_ & _ & H & _). exact H.
  - intros cb. pose proof (SpeechFacts.restartListening_timers cb s) as E. cbv zeta in E.
    destruct E as (E1 & _). unfold pending_restarts. rewrite E1, filter_app.
    rewrite SpeechFacts.no_restart_pending; [reflexivity|].
    intros i c. eapply SpeechFacts.cancel_no_restart, Hr.
Qed.

Lemma one_restart_timer_at_most_witness :
  pending_restarts (fst (restartListening 8 awaiting_restart))
  = [(2%positive, RestartTask 8)].
Proof.
  assert (R : reachable awaiting_restart).
  { exists [Mount browser; CallStart browser (Some 7); OnStart 0; CallRestart 7].
    vm_compute. reflexivity. }
  destruct (one_restart_timer_at_most awaiting_restart R) as (_ & _ & H).
  exact (H 8).
Defined.

(** The voice loop: in a reachable state, [restartListening] followed by
    the firing of its timer starts a new voice session with the callback it
    was given, when voice mode is still on and the platform lets the engine
    start; when voice mode is off by then, the firing does nothing at all.
    Either way no restart timer is left pending. *)
Theorem restart_resumes_voice_session (p : platform) (cb : callback) (s : state) :
  reachable s ->
  let fired := fire_timer p (next_timer s) (fst (restartListening cb s)) in
  (isVoiceModeRef s = true ->
   reaches_cleanup p s = true -> construct p = None -> start p = None ->
     recognitionRef (fst fired) = Some (next_engine s)
     /\ isVoiceModeRef (fst fired) = true
     /\ onSpeechEndRef (fst fired) = Some cb
     /\ finalTranscriptRef (fst fired) = ""
     /\ lastProcessedTextRef (fst fired) = ""
     /\ isProcessingRef (fst fired) = false
     /\ In (EngineStart (next_engine s)) (snd fired)
     /\ pending_restarts (fst fired) = [])
  /\ (isVoiceModeRef s = false ->
        snd fired = []
        /\ recognitionRef (fst fired) = recognitionRef s
        /\ isListening (fst fired) = isListening s
        /\ pending_restarts (fst fired) = []).
Proof.
  intros Hr fired. apply SpeechFacts.reachable_tracked in Hr.
  pose proof (SpeechFacts.restartListening_timers cb s) as E. cbv zeta in E.
  destruct E as (E1 & E2 & E3).
  pose proof (restartListening_frame cb s) as F. cbv zeta in F.
  destruct F as (F1 & F2 & F3 & F4 & F5).
  assert (Hfind : find_timer (next_timer s) (timers (fst (restartListening cb s)))
                  = Some (RestartTask cb)).
  { rewrite E1. apply find_timer_last. intros i u Hin.
    apply SpeechFacts.tracked_cancel in Hr. destruct Hr as (H1 & _). eapply H1, Hin. }
  assert (Ht1 : timers_tracked (fst (restartListening cb s))).
  { apply (SpeechFacts.step_tracked (CallRestart cb)), Hr. }
  set (s1 := fst (restartListening cb s)) in *.
  set (s1' := set_timers (remove_timer (next_timer s) (timers s1)) s1).
  assert (Ht1' : timers_tracked s1').
  { subst s1'. destruct s1. apply SpeechFacts.tracked_remove, Ht1. }
  assert (Hnone : forall s2, timers_tracked s2 ->
            (forall id c, In (id, RestartTask c) (timers s2) -> False) ->
            pending_restarts s2 = []).
  { intros s2 _ Hno. apply SpeechFacts.no_restart_pending. intros i c Hin. eapply Hno, Hin. }
  split.
  - intros Hv Hc Hcon Hst.
    assert (Hfired : fired = fst (startListening p (Some cb) s1')).
    { subst fired. unfold fire_timer. rewrite Hfind. fold s1'.
      replace (isVoiceModeRef s1') with true by (symmetry; rewrite <- Hv; exact F2).
      reflexivity. }
    assert (Hc' : reaches_cleanup p s1' = true).
    { unfold reaches_cleanup in *. replace (isSupported s1') with (isSupported s)
        by (symmetry; exact F1). exact Hc. }
    pose proof (startListening_started p (Some cb) s1' Hc' Hcon Hst) as S.
    cbv zeta in S. rewrite <- Hfired in S.
    destruct S as (S1 & _ & S3 & S4 & S5 & S6 & S7 & _ & _ & S10 & _ & S12 & _).
    replace (next_engine s1') with (next_engine s) in S1, S12 by (symmetry; exact F4).
    repeat apply conj; try assumption.
    apply Hnone.
    + rewrite Hfired. apply SpeechFacts.startListening_tracked, Ht1'.
    + intros id c Hin.
      assert (T : timers_tracked (fst fired)).
      { rewrite Hfired. apply SpeechFacts.startListening_tracked, Ht1'. }
      destruct T as (_ & _ & T3 & _). specialize (T3 id c Hin).
      rewrite S10 in T3. discriminate T3.
  - intros Hv.
    assert (Hfired : fired = (s1', [])).
    { subst fired. unfold fire_timer. rewrite Hfind. fold s1'.
      replace (isVoiceModeRef s1') with false by (symmetry; rewrite <- Hv; exact F2).
      reflexivity. }
    rewrite Hfired. cbn [fst snd]. repeat apply conj.
    + reflexivity.
    + exact F3.
    + exact F5.
    + apply Hnone; [exact Ht1'|].
      intros id c Hin. pose proof Ht1' as (_ & _ & T3 & _).
      specialize (T3 id c Hin).
      replace (timeoutRef s1') with (Some (next_timer s)) in T3 by (symmetry; exact E2).
      injection T3 as <-.
      apply (proj1 (SpeechFacts.In_remove_timer _ _ _)) in Hin.
      destruct Hin as [_ Hne]. apply Hne. reflexivity.
Qed.

Lemma restart_resumes_voice_session_witness :
  recognitionRef (fst (fire_timer browser 1%positive (fst (restartListening 7 voice_session))))
  = Some 1.
Proof.
  assert (R : reachable voice_session).
  { exists [Mount browser; CallStart browser (Some 7); OnStart 0]. reflexivity. }
  destruct (restart_resumes_voice_session browser 7 voice_session R) as (H & _).
  destruct (H eq_refl eq_refl eq_refl eq_refl) as (H1 & _).
  exact H1.
Defined.

(** ** A platform without the engine *)

Lemma restarts_only_remove (id : timer_id) (tm : list (timer_id * task)) :
  forallb (fun p => is_restart (snd p)) tm = true ->
  forallb (fun p => is_restart (snd p)) (remove_timer id tm) = true.
Proof.
  intros H. apply forallb_forall. intros x Hx.
  apply SpeechFacts.In_remove_timer in Hx. destruct Hx as [Hx _].
  rewrite forallb_forall in H. apply H, Hx.
Qed.

Lemma restarts_only_find (id : timer_id) (tm : list (timer_id * task)) (t : task) :
  forallb (fun p => is_restart (snd p)) tm = true ->
  find_timer id tm = Some t -> is_restart t = true.
Proof.
  induction tm as [|[i u] tm IH]; simpl; intros H Hf; [discriminate Hf|].
  apply andb_prop in H. destruct H as [Hu H].
  destruct (Pos.eqb i id); [injection Hf as <-; exact Hu | apply IH; assumption].
Qed.

Lemma step_dormant (i : input) (s : state) :
  engineless i = true ->
  dormant s ->
  dormant (fst (step i s)) /\ filter noticeable (snd (step i s)) = [].
Proof.
  intros Hi Hd.
  destruct i as [p | p cb | | | cb | r | r ev | r | r e | p id | p | p cb | p id];
    cbn [step]; try discriminate Hi.
  - cbn in Hi. apply negb_true_iff in Hi. unfold mount, when. rewrite Hi.
    split; [exact Hd | reflexivity].
  - destruct Hd as (Hs & Hrest). rewrite SpeechFacts.startListening_eq. rewrite Hs.
    split; [split; [exact Hs | exact Hrest] | reflexivity].
  - fields s. destruct Hd as (H1 & H2 & H3 & H4 & H5). cbn in *. subst.
    destruct tref; cbn; (split; [|reflexivity]); repeat split; trivial.
    apply restarts_only_remove, H5.
  - fields s. destruct Hd as (H1 & H2 & H3 & H4 & H5). cbn in *. subst.
    split; [repeat split; trivial | reflexivity].
  - split; [|fields s; destruct tref; reflexivity].
    pose proof (SpeechFacts.restartListening_timers cb s) as E. cbv zeta in E.
    destruct E as (E1 & _).
    pose proof (restartListening_frame cb s) as F. cbv zeta in F.
    destruct F as (F1 & F2 & F3 & _ & F5).
    destruct Hd as (H1 & H2 & H3 & H4 & H5).
    unfold dormant. rewrite F1, F2, F3, F5, E1. repeat split; trivial.
    rewrite forallb_app. cbn. rewrite andb_true_r.
    destruct (timeoutRef s); simpl; [apply restarts_only_remove|]; exact H5.
  - unfold fire_timer. destruct (find_timer id (timers s)) as [t|] eqn:Hf;
      [|split; [exact Hd | reflexivity]].
    destruct Hd as (H1 & H2 & H3 & H4 & H5).
    pose proof (restarts_only_find id _ t H5 Hf) as Ht.
    destruct t as [c text | c]; [discriminate Ht|].
    fields s. cbn in *. subst. cbn.
    split; [repeat split; trivial; apply restarts_only_remove, H5 | reflexivity].
  - destruct Hd as (Hs & Hrest). unfold startListening_begin. rewrite Hs.
    split; [split; [exact Hs | exact Hrest] | reflexivity].
  - unfold fire_timer_begin. destruct (find_timer id (timers s)) as [t|] eqn:Hf;
      [|split; [exact Hd | reflexivity]].
    destruct Hd as (H1 & H2 & H3 & H4 & H5).
    pose proof (restarts_only_find id _ t H5 Hf) as Ht.
    destruct t as [c text | c]; [discriminate Ht|].
    fields s. cbn in *. subst. cbn.
    split; [repeat split; trivial; apply restarts_only_remove, H5 | reflexivity].
Qed.

Lemma run_dormant (l : list input) (s : state) :
  forallb engineless l = true ->
  dormant s ->
  dormant (fst (run l s)) /\ filter noticeable (snd (run l s)) = [].
Proof.
  revert s. induction l as [|i l IH]; intros s Hl Hd.
  - split; [exact Hd | reflexivity].
  - cbn [forallb] in Hl. apply andb_prop in Hl. destruct Hl as [Hi Hl].
    destruct (step_dormant i s Hi Hd) as (Hd1 & Hn1).
    destruct (IH _ Hl Hd1) as (Hd2 & Hn2).
    rewrite SpeechFacts.run_cons, SpeechFacts.seq_fst, SpeechFacts.seq_snd, noticeable_app.
    rewrite Hn1, Hn2. split; [exact Hd2 | reflexivity].
Qed.

(** On a platform without the engine, nothing a caller does is ever
    noticed: whatever sequence of mounts, [startListening], [stopListening],
    [resetTranscript] and [restartListening] calls and timer firings
    happens, the hook creates, starts, stops and aborts no engine, probes no
    permission and no microphone, shows no alert and invokes no callback; it
    stays unsupported, not listening and out of voice mode. *)
Theorem engineless_platform_stays_dormant (l : list input) :
  forallb engineless l = true ->
  dormant (fst (run l init)) /\ filter noticeable (snd (run l init)) = [].
Proof.
  intros Hl. apply run_dormant; [exact Hl|]. repeat split.
Qed.

Lemma engineless_platform_stays_dormant_witness :
  filter noticeable
    (snd (run [Mount browser_without_engine;
               CallStart browser_without_engine (Some 7);
               CallRestart 7;
               TimerFires browser_without_engine 1%positive;
               CallStop] init))
  = [].
Proof.
  destruct (engineless_platform_stays_dormant
              [Mount browser_without_engine;
               CallStart browser_without_engine (Some 7);
               CallRestart 7;
               TimerFires browser_without_engine 1%positive;
               CallStop] eq_refl) as (_ & H).
  exact H.
Defined.

(** ** A call that is awaiting when the session is stopped *)

(** [stopListening] does not reach a call of [startListening] that is
    awaiting its permission check: the stop leaves the hook out of voice
    mode, without callback and without engine, and the call, resuming on a
    platform that grants the microphone and whose engine starts, turns voice
    mode on again for its callback, creates a new engine and starts it. *)
Theorem resumed_call_outlives_stop (p : platform) (onSpeechEnd : callback) (s : state) :
  resumes_to_cleanup p = true ->
  construct p = None ->
  start p = None ->
  let stopped := fst (stopListening s) in
  let resumed := startListening_resume p (Some onSpeechEnd) stopped in
  isVoiceModeRef stopped = false
  /\ onSpeechEndRef stopped = None
  /\ recognitionRef stopped = None
  /\ isVoiceModeRef (fst (fst resumed)) = true
  /\ onSpeechEndRef (fst (fst resumed)) = Some onSpeechEnd
  /\ recognitionRef (fst (fst resumed)) = Some (next_engine s)
  /\ engine_effects (snd (fst resumed))
     = [EngineNew (next_engine s); EngineStart (next_engine s)]
  /\ snd resumed = Resolved.
Proof.
  unfold resumes_to_cleanup. intros Hc Hcon Hst.
  apply andb_prop in Hc. destruct Hc as [Hp Hsr].
  cbv zeta. unfold startListening_resume. rewrite Hp, Hsr, Hcon, Hst. cbn [negb].
  fields s. destruct tref, rref; repeat apply conj; reflexivity.
Qed.

(** The restart timer of a voice session fires and its call awaits the
    permission check; the session is stopped; the call resumes. *)
Lemma resumed_call_outlives_stop_witness :
  let awaiting :=
    fst (run [CallRestart 7; TimerBegins browser 1%positive] voice_session) in
  timers awaiting = []
  /\ isVoiceModeRef (fst (stopListening awaiting)) = false
  /\ isVoiceModeRef
       (fst (fst (startListening_resume browser (Some 7) (fst (stopListening awaiting)))))
     = true
  /\ recognitionRef
       (fst (fst (startListening_resume browser (Some 7) (fst (stopListening awaiting)))))
     = Some 1.
Proof.
  cbv zeta.
  destruct (resumed_call_outlives_stop browser 7
              (fst (run [CallRestart 7; TimerBegins browser 1%positive] voice_session))
              eq_refl eq_refl eq_refl) as (H1 & _ & _ & H4 & _ & H6 & _).
  repeat apply conj; [vm_compute; reflexivity | exact H1 | exact H4 | exact H6].
Defined.

End SpeechExtras.
